(** * Curves: the merged-curve renderer of flight-path (src/unnamed/part_000)

    A shallow embedding of the [Curves] class.  JavaScript numbers are
    modelled as real numbers (the rounding of [Float32Array] stores and of
    double arithmetic is not modelled); slot indices and counts are
    integers ([Z]); the three pre-allocated typed arrays are lists of reals
    updated with stdpp's list insert, which, like a typed-array store, does
    nothing out of range.  The pieces of three.js that [Curves] calls
    ([Vector3.distanceTo], [Color], [CatmullRomCurve3]) are modelled in
    module [Three] after the library's code. *)

From Stdlib Require Import Reals Lra Lia ZArith.
From stdpp Require Import base list.
From Stdlib Require Strings.String Strings.Ascii.

Open Scope R_scope.

(** ** The three.js library pieces used by [Curves] *)
Module Three.

(** [THREE.Vector3] *)
Record vec3 := V3 { vx : R; vy : R; vz : R }.

Definition vzero : vec3 := V3 0 0 0.

(** [Vector3.distanceToSquared] and [Vector3.distanceTo] *)
Definition distanceToSquared (a v : vec3) : R :=
  let dx := vx a - vx v in
  let dy := vy a - vy v in
  let dz := vz a - vz v in
  dx * dx + dy * dy + dz * dz.

Definition distanceTo (a v : vec3) : R := sqrt (distanceToSquared a v).

(** [THREE.MathUtils.clamp]: [Math.max(min, Math.min(max, value))] *)
Definition clamp (value mn mx : R) : R := Rmax mn (Rmin mx value).

(** JavaScript's [Math.trunc] and the remainder operator [%] *)
Definition js_trunc (r : R) : Z :=
  if Rle_dec 0 r then Int_part r else (- Int_part (- r))%Z.

Definition js_mod (x y : R) : R := x - y * IZR (js_trunc (x / y)).

(** [THREE.MathUtils.euclideanModulo]: [((n % m) + m) % m] *)
Definition euclideanModulo (n m : R) : R := js_mod (js_mod n m + m) m.

(** [THREE.Color]: three components (working, linear sRGB space). *)
Record color := RGB { cr : R; cg : R; cb : R }.

(** [SRGBToLinear] of three's color management *)
Definition SRGBToLinear (c : R) : R :=
  if Rlt_dec c 0.04045 then c * 0.0773993808
  else Rpower (c * 0.9478672986 + 0.0521327014) 2.4.

(** [new THREE.Color(hex)] = [setHex(hex, SRGBColorSpace)]: the bytes of
    the integer, divided by 255, converted to the working color space. *)
Definition colorFromHex (hex : Z) : color :=
  let byte k := IZR (Z.land (Z.shiftr hex k) 255) / 255 in
  RGB (SRGBToLinear (byte 16%Z)) (SRGBToLinear (byte 8%Z)) (SRGBToLinear (byte 0%Z)).

(** [hue2rgb] of [Color.setHSL] *)
Definition hue2rgb (p q t : R) : R :=
  let t := if Rlt_dec t 0 then t + 1 else t in
  let t := if Rlt_dec 1 t then t - 1 else t in
  if Rlt_dec t (1 / 6) then p + (q - p) * 6 * t
  else if Rlt_dec t (1 / 2) then q
  else if Rlt_dec t (2 / 3) then p + (q - p) * 6 * (2 / 3 - t)
  else p.

(** [Color.setHSL(h, s, l)] in the working color space (no conversion). *)
Definition setHSL (h s l : R) : color :=
  let h := euclideanModulo h 1 in
  let s := clamp s 0 1 in
  let l := clamp l 0 1 in
  if Req_EM_T s 0 then RGB l l l
  else
    let p := if Rle_dec l 0.5 then l * (1 + s) else l + s - l * s in
    let q := 2 * l - p in
    RGB (hue2rgb q p (h + 1 / 3)) (hue2rgb q p h) (hue2rgb q p (h - 1 / 3)).

(** [CubicPoly] of [CatmullRomCurve3]: coefficients [c0..c3]. *)
Record cubic := Cubic { c0 : R; c1 : R; c2 : R; c3 : R }.

Definition cubic_init (x0 x1 t0 t1 : R) : cubic :=
  Cubic x0 t0 (-3 * x0 + 3 * x1 - 2 * t0 - t1) (2 * x0 - 2 * x1 + t0 + t1).

Definition initNonuniformCatmullRom (x0 x1 x2 x3 dt0 dt1 dt2 : R) : cubic :=
  let t1 := (x1 - x0) / dt0 - (x2 - x0) / (dt0 + dt1) + (x2 - x1) / dt1 in
  let t2 := (x2 - x1) / dt1 - (x3 - x1) / (dt1 + dt2) + (x3 - x2) / dt2 in
  cubic_init x1 x2 (t1 * dt1) (t2 * dt1).

Definition calc (c : cubic) (t : R) : R :=
  let t2 := t * t in
  let t3 := t2 * t in
  c0 c + c1 c * t + c2 c * t2 + c3 c * t3.

(** [points[i]] *)
Definition pt (points : list vec3) (i : Z) : vec3 := nth (Z.to_nat i) points vzero.

(** [Math.pow(x, 0.25)] for the non-negative squared distances it is applied to *)
Definition pow_quarter (x : R) : R := sqrt (sqrt x).

(** [CatmullRomCurve3.getPoint(t)] for an open curve of the default
    'centripetal' type.  When both end points are extrapolated (two
    control points), [p0] and [p3] are the same scratch vector [tmp], which
    holds the last extrapolation when the polynomial is built. *)
Definition getPoint (points : list vec3) (t : R) : vec3 :=
  let l := Z.of_nat (length points) in
  let p := IZR (l - 1)%Z * t in
  let intPoint0 := Int_part p in
  let weight0 := p - IZR intPoint0 in
  let '(intPoint, weight) :=
    if Req_EM_T weight0 0 then
      if Z.eq_dec intPoint0 (l - 1)%Z then ((l - 2)%Z, 1) else (intPoint0, weight0)
    else (intPoint0, weight0) in
  let ext3 := V3 (2 * vx (pt points (l - 1)%Z) - vx (pt points (l - 2)%Z))
                 (2 * vy (pt points (l - 1)%Z) - vy (pt points (l - 2)%Z))
                 (2 * vz (pt points (l - 1)%Z) - vz (pt points (l - 2)%Z)) in
  let ext0 := V3 (2 * vx (pt points 0%Z) - vx (pt points 1%Z))
                 (2 * vy (pt points 0%Z) - vy (pt points 1%Z))
                 (2 * vz (pt points 0%Z) - vz (pt points 1%Z)) in
  let p3_is_tmp := negb (Z.ltb (intPoint + 2)%Z l) in
  let p0 := if Z.ltb 0%Z intPoint then pt points (intPoint - 1)%Z
            else if p3_is_tmp then ext3 else ext0 in
  let p1 := pt points intPoint in
  let p2 := pt points (intPoint + 1)%Z in
  let p3 := if p3_is_tmp then ext3 else pt points (intPoint + 2)%Z in
  let dt1' := pow_quarter (distanceToSquared p1 p2) in
  let dt0' := pow_quarter (distanceToSquared p0 p1) in
  let dt2' := pow_quarter (distanceToSquared p2 p3) in
  let dt1 := if Rlt_dec dt1' 0.0001 then 1 else dt1' in
  let dt0 := if Rlt_dec dt0' 0.0001 then dt1 else dt0' in
  let dt2 := if Rlt_dec dt2' 0.0001 then dt1 else dt2' in
  let px := initNonuniformCatmullRom (vx p0) (vx p1) (vx p2) (vx p3) dt0 dt1 dt2 in
  let py := initNonuniformCatmullRom (vy p0) (vy p1) (vy p2) (vy p3) dt0 dt1 dt2 in
  let pz := initNonuniformCatmullRom (vz p0) (vz p1) (vz p2) (vz p3) dt0 dt1 dt2 in
  V3 (calc px weight) (calc py weight) (calc pz weight).

(** [Curve.getPoints(divisions)]: [getPoint(d / divisions)], d = 0..divisions *)
Definition getPoints (points : list vec3) (divisions : nat) : list vec3 :=
  map (fun d => getPoint points (INR d / INR divisions)) (seq 0 (S divisions)).

(** [Curve.arcLengthDivisions] *)
Definition arcLengthDivisions : nat := 200.

(** One iteration of the loop of [Curve.getLengths]: [current =
    getPoint(p / divisions); sum += current.distanceTo(last);
    cache.push(sum); last = current]. *)
Definition lengths_step (points : list vec3) (divisions : nat)
    (acc : list R * vec3 * R) (p : nat) : list R * vec3 * R :=
  let '(cache, last, sum) := acc in
  let current := getPoint points (INR p / INR divisions) in
  let sum := sum + distanceTo current last in
  (cache ++ [sum], current, sum).

(** [Curve.getLengths(divisions)] on a fresh curve (no cached lengths). *)
Definition getLengths (points : list vec3) (divisions : nat) : list R :=
  let '(cache, _, _) :=
    fold_left (lengths_step points divisions) (seq 1 divisions)
      ([0], getPoint points 0, 0) in
  cache.

(** The binary search of [Curve.getUtoTmapping]; the result is [high]
    when the loop ends, or [i] on the [break] of an exact match.  The
    [fuel] bounds the iterations: the code starts it at [arcLengths.length],
    which is enough, as each iteration shrinks [high - low]. *)
Fixpoint utot_search (fuel : nat) (arcLengths : list R) (target : R)
    (low high : Z) : Z :=
  match fuel with
  | O => high
  | S fuel' =>
      if (low <=? high)%Z then
        let i := (low + (high - low) / 2)%Z in
        let comparison := nth (Z.to_nat i) arcLengths 0 - target in
        if Rlt_dec comparison 0 then
          utot_search fuel' arcLengths target (i + 1)%Z high
        else if Rlt_dec 0 comparison then
          utot_search fuel' arcLengths target low (i - 1)%Z
        else i
      else high
  end.

(** [Curve.getUtoTmapping(u)] (no [distance] argument) *)
Definition getUtoTmapping (arcLengths : list R) (u : R) : R :=
  let il := length arcLengths in
  let targetArcLength := u * nth (il - 1) arcLengths 0 in
  let i := utot_search il arcLengths targetArcLength 0 (Z.of_nat il - 1) in
  let lengthBefore := nth (Z.to_nat i) arcLengths 0 in
  if Req_EM_T lengthBefore targetArcLength then IZR i / INR (il - 1)
  else
    let lengthAfter := nth (Z.to_nat (i + 1)) arcLengths 0 in
    let segmentLength := lengthAfter - lengthBefore in
    let segmentFraction := (targetArcLength - lengthBefore) / segmentLength in
    (IZR i + segmentFraction) / INR (il - 1).

(** [Curve.getPointAt(u)] *)
Definition getPointAt (points : list vec3) (u : R) : vec3 :=
  getPoint points (getUtoTmapping (getLengths points arcLengthDivisions) u).

(** [Vector3.length] *)
Definition vlength (v : vec3) : R := sqrt (vx v * vx v + vy v * vy v + vz v * vz v).

(** [Vector3.normalize]: [this.divideScalar(this.length() || 1)], where
    [divideScalar(s)] is [multiplyScalar(1 / s)]. *)
Definition normalize (v : vec3) : vec3 :=
  let l := vlength v in
  let scalar := if Req_EM_T l 0 then 1 else l in
  V3 (vx v * (1 / scalar)) (vy v * (1 / scalar)) (vz v * (1 / scalar)).

(** [Curve.getTangent(t)]: a central difference, capped to [0, 1],
    normalised. *)
Definition getTangent (points : list vec3) (t : R) : vec3 :=
  let delta := 0.0001 in
  let t1 := t - delta in
  let t2 := t + delta in
  let t1 := if Rlt_dec t1 0 then 0 else t1 in
  let t2 := if Rlt_dec 1 t2 then 1 else t2 in
  let pt1 := getPoint points t1 in
  let pt2 := getPoint points t2 in
  normalize (V3 (vx pt2 - vx pt1) (vy pt2 - vy pt1) (vz pt2 - vz pt1)).

(** [Curve.getTangentAt(u)] *)
Definition getTangentAt (points : list vec3) (u : R) : vec3 :=
  getTangent points (getUtoTmapping (getLengths points arcLengthDivisions) u).

End Three.

Import Three.

(** ** The [Curves] class *)
Module Curves.

(** The [color] argument of [setCurve]/[setCurveColor]: a hex number, a
    [THREE.Color] (or an object with [isColor === true]), a gradient
    descriptor [{type: 'gradient', departureLat, departureLng}] (absent
    fields are [None]), or any other value (string, null, plain object). *)
Inductive ColorArg :=
| CHex (hex : Z)
| CColor (c : color)
| CGradient (departureLat departureLng : option R)
| COther.

(** The opaque [metadata] blob, as far as [_computeGradientParams] reads
    it: [null], or an object whose [departure] field is missing/falsy
    ([None]) or an object with optional [lat] and [lng]. *)
Inductive Meta :=
| MNull
| MObj (departure : option (option R * option R)).

(** One entry of [this.curveData] *)
Record CurveData := {
  controlPoints : list vec3;
  cd_color : ColorArg;
  visible : bool;
  metadata : Meta
}.

(** The fields of a [Curves] object.  [drawCount] is the count of
    [geometry.drawRange]; [materialDashed] says whether [createMaterial]
    built a [LineDashedMaterial]; [meshPresent] is [this.mesh !== null];
    the three [...Version] fields count the [needsUpdate = true] stores of
    the three buffer attributes (three.js increments [version] there),
    i.e. the attribute uploads. *)
Record Curves := {
  maxCurves : nat;
  segmentsPerCurve : nat;
  dashSize : R;
  gapSize : R;
  positions : list R;
  colors : list R;
  lineDistances : list R;
  currentCurveCount : Z;
  drawCount : Z;
  needsPositionUpdate : bool;
  needsColorUpdate : bool;
  needsLineDistanceUpdate : bool;
  curveData : list CurveData;
  meshPresent : bool;
  materialDashed : bool;
  positionVersion : nat;
  colorVersion : nat;
  lineDistanceVersion : nat
}.

Definition verticesPerSegment : nat := 2.

Definition verticesPerCurve (s : Curves) : nat :=
  segmentsPerCurve s * verticesPerSegment.

(** Field updates *)
Definition with_buffers (s : Curves) (pos col ld : list R) : Curves :=
  {| maxCurves := maxCurves s; segmentsPerCurve := segmentsPerCurve s;
     dashSize := dashSize s; gapSize := gapSize s;
     positions := pos; colors := col; lineDistances := ld;
     currentCurveCount := currentCurveCount s; drawCount := drawCount s;
     needsPositionUpdate := needsPositionUpdate s;
     needsColorUpdate := needsColorUpdate s;
     needsLineDistanceUpdate := needsLineDistanceUpdate s;
     curveData := curveData s; meshPresent := meshPresent s;
     materialDashed := materialDashed s;
     positionVersion := positionVersion s; colorVersion := colorVersion s;
     lineDistanceVersion := lineDistanceVersion s |}.

Definition with_flags (s : Curves) (np nc nl : bool) : Curves :=
  {| maxCurves := maxCurves s; segmentsPerCurve := segmentsPerCurve s;
     dashSize := dashSize s; gapSize := gapSize s;
     positions := positions s; colors := colors s;
     lineDistances := lineDistances s;
     currentCurveCount := currentCurveCount s; drawCount := drawCount s;
     needsPositionUpdate := np; needsColorUpdate := nc;
     needsLineDistanceUpdate := nl;
     curveData := curveData s; meshPresent := meshPresent s;
     materialDashed := materialDashed s;
     positionVersion := positionVersion s; colorVersion := colorVersion s;
     lineDistanceVersion := lineDistanceVersion s |}.

Definition with_versions (s : Curves) (vp vc vl : nat) : Curves :=
  {| maxCurves := maxCurves s; segmentsPerCurve := segmentsPerCurve s;
     dashSize := dashSize s; gapSize := gapSize s;
     positions := positions s; colors := colors s;
     lineDistances := lineDistances s;
     currentCurveCount := currentCurveCount s; drawCount := drawCount s;
     needsPositionUpdate := needsPositionUpdate s;
     needsColorUpdate := needsColorUpdate s;
     needsLineDistanceUpdate := needsLineDistanceUpdate s;
     curveData := curveData s; meshPresent := meshPresent s;
     materialDashed := materialDashed s;
     positionVersion := vp; colorVersion := vc; lineDistanceVersion := vl |}.

Definition with_count (s : Curves) (cc dc : Z) : Curves :=
  {| maxCurves := maxCurves s; segmentsPerCurve := segmentsPerCurve s;
     dashSize := dashSize s; gapSize := gapSize s;
     positions := positions s; colors := colors s;
     lineDistances := lineDistances s;
     currentCurveCount := cc; drawCount := dc;
     needsPositionUpdate := needsPositionUpdate s;
     needsColorUpdate := needsColorUpdate s;
     needsLineDistanceUpdate := needsLineDistanceUpdate s;
     curveData := curveData s; meshPresent := meshPresent s;
     materialDashed := materialDashed s;
     positionVersion := positionVersion s; colorVersion := colorVersion s;
     lineDistanceVersion := lineDistanceVersion s |}.

Definition with_curveData (s : Curves) (cd : list CurveData) : Curves :=
  {| maxCurves := maxCurves s; segmentsPerCurve := segmentsPerCurve s;
     dashSize := dashSize s; gapSize := gapSize s;
     positions := positions s; colors := colors s;
     lineDistances := lineDistances s;
     currentCurveCount := currentCurveCount s; drawCount := drawCount s;
     needsPositionUpdate := needsPositionUpdate s;
     needsColorUpdate := needsColorUpdate s;
     needsLineDistanceUpdate := needsLineDistanceUpdate s;
     curveData := cd; meshPresent := meshPresent s;
     materialDashed := materialDashed s;
     positionVersion := positionVersion s; colorVersion := colorVersion s;
     lineDistanceVersion := lineDistanceVersion s |}.

Definition with_material (s : Curves) (d g : R) (mesh dashed : bool) : Curves :=
  {| maxCurves := maxCurves s; segmentsPerCurve := segmentsPerCurve s;
     dashSize := d; gapSize := g;
     positions := positions s; colors := colors s;
     lineDistances := lineDistances s;
     currentCurveCount := currentCurveCount s; drawCount := drawCount s;
     needsPositionUpdate := needsPositionUpdate s;
     needsColorUpdate := needsColorUpdate s;
     needsLineDistanceUpdate := needsLineDistanceUpdate s;
     curveData := curveData s; meshPresent := mesh;
     materialDashed := dashed;
     positionVersion := positionVersion s; colorVersion := colorVersion s;
     lineDistanceVersion := lineDistanceVersion s |}.

(** [dashSize > 0]; [createMaterial] builds a [LineDashedMaterial] iff it holds *)
Definition createMaterialDashed (dash : R) : bool :=
  if Rlt_dec 0 dash then true else false.

(** [constructor(scene, options)] followed by [initialize()].  An option
    given as [0] or left [undefined] takes the default ([||]); the dash
    and gap sizes are taken as given when defined. *)
Definition new_Curves (optMaxCurves optSegments : nat)
    (optDash optGap : option R) : Curves :=
  let mc := match optMaxCurves with O => 1000%nat | n => n end in
  let seg := match optSegments with O => 100%nat | n => n end in
  let dash := match optDash with Some d => d | None => 0 end in
  let gap := match optGap with Some g => g | None => 0 end in
  let totalVertices := (mc * (seg * verticesPerSegment))%nat in
  {| maxCurves := mc; segmentsPerCurve := seg;
     dashSize := dash; gapSize := gap;
     positions := repeat 0 (totalVertices * 3);
     colors := repeat 0 (totalVertices * 3);
     lineDistances := repeat 0 totalVertices;
     currentCurveCount := 0%Z; drawCount := 0%Z;
     needsPositionUpdate := false; needsColorUpdate := false;
     needsLineDistanceUpdate := false;
     curveData := repeat {| controlPoints := []; cd_color := CHex 16777215;
                            visible := false; metadata := MNull |} mc;
     meshPresent := true;
     materialDashed := createMaterialDashed dash;
     positionVersion := 0%nat; colorVersion := 0%nat;
     lineDistanceVersion := 0%nat |}.

(** [curveIndex < 0 || curveIndex >= this.maxCurves] *)
Definition out_of_range (s : Curves) (k : Z) : bool :=
  (k <? 0)%Z || (Z.of_nat (maxCurves s) <=? k)%Z.

(** [updateDrawRange()] *)
Definition updateDrawRange (s : Curves) : Curves :=
  with_count s (currentCurveCount s)
    (currentCurveCount s * Z.of_nat (verticesPerCurve s))%Z.

(** The gradient descriptor returned by [_computeGradientParams] *)
Record GradParams := {
  hue : R;
  saturation : R;
  lightnessStart : R;
  lightnessEnd : R
}.

Definition or_zero (x : option R) : R :=
  match x with Some v => v | None => 0 end.

(** [_computeGradientParams(color, metadata)] *)
Definition _computeGradientParams (c : ColorArg) (m : Meta) : option GradParams :=
  let source :=
    match c with
    | CGradient lat lng => Some (or_zero lat, or_zero lng)
    | _ => match m with
           | MObj (Some (lat, lng)) => Some (or_zero lat, or_zero lng)
           | _ => None
           end
    end in
  match source with
  | None => None
  | Some (lat, lng) =>
      let h := js_mod (lng + 180) 360 / 360 in
      let latFactor := Rmin (Rabs lat / 90) 1 in
      let sat := clamp (0.6 + 0.3 * (1 - latFactor)) 0 1 in
      Some {| hue := h; saturation := sat;
              lightnessStart := 0.35; lightnessEnd := 0.75 |}
  end.

(** [_resolveSolidColor(color)] *)
Definition _resolveSolidColor (c : ColorArg) : color :=
  match c with
  | CColor col => col
  | CHex hex => colorFromHex hex
  | _ => colorFromHex 4491519 (* 0x4488ff *)
  end.

(** The [lightness] computed by [_getColorForProgress] *)
Definition progressLightness (params : GradParams) (progress : R) : R :=
  let clampedProgress := clamp progress 0 1 in
  clamp (lightnessStart params
         + (lightnessEnd params - lightnessStart params) * clampedProgress) 0 1.

(** [_getColorForProgress(params, progress, target)] *)
Definition _getColorForProgress (params : GradParams) (progress : R) : color :=
  setHSL (hue params) (saturation params) (progressLightness params progress).

(** [buf[bi] = c.r; buf[bi + 1] = c.g; buf[bi + 2] = c.b] *)
Definition write_rgb (buf : list R) (bi : nat) (c : color) : list R :=
  <[(bi + 2)%nat := cb c]> (<[(bi + 1)%nat := cg c]> (<[bi := cr c]> buf)).

(** One iteration of the loop of [_applyColorToCurve] *)
Definition color_segment (seg : nat) (gp : option GradParams) (solid : color)
    (vertexOffset : nat) (col : list R) (segmentIndex : nat) : list R :=
  let vertexIndex := (vertexOffset + segmentIndex * verticesPerSegment)%nat in
  let bufferIndex := (vertexIndex * 3)%nat in
  match gp with
  | Some params =>
      let startColor := _getColorForProgress params (INR segmentIndex / INR seg) in
      let endColor := _getColorForProgress params (INR (S segmentIndex) / INR seg) in
      write_rgb (write_rgb col bufferIndex startColor) (bufferIndex + 3) endColor
  | None =>
      write_rgb (write_rgb col bufferIndex solid) (bufferIndex + 3) solid
  end.

(** [_applyColorToCurve(curveIndex)]; [None] is a thrown [TypeError]
    ([this.curveData[curveIndex]] undefined, after [remove()]). *)
Definition _applyColorToCurve (k : Z) (s : Curves) : option Curves :=
  if out_of_range s k then Some s else
  match curveData s !! Z.to_nat k with
  | None => None
  | Some cd =>
      if negb (visible cd) then Some s else
      let gp := _computeGradientParams (cd_color cd) (metadata cd) in
      let vertexOffset := (Z.to_nat k * verticesPerCurve s)%nat in
      let solid := _resolveSolidColor (cd_color cd) in
      let col := fold_left (color_segment (segmentsPerCurve s) gp solid vertexOffset)
                   (seq 0 (segmentsPerCurve s)) (colors s) in
      Some (with_flags (with_buffers s (positions s) col (lineDistances s))
              (needsPositionUpdate s) true (needsLineDistanceUpdate s))
  end.

(** One iteration of the loop of [setCurve]: positions of the segment's
    two vertices, and the running [distance] into [lineDistances]. *)
Definition curve_segment (points : list vec3) (vertexOffset : nat)
    (acc : list R * list R * R) (segmentIndex : nat) : list R * list R * R :=
  let '(pos, ld, distance) := acc in
  let startPoint := nth segmentIndex points vzero in
  let endPoint := nth (S segmentIndex) points vzero in
  let vertexIndex := (vertexOffset + segmentIndex * verticesPerSegment)%nat in
  let bufferIndex := (vertexIndex * 3)%nat in
  let pos := <[(bufferIndex + 5)%nat := vz endPoint]>
             (<[(bufferIndex + 4)%nat := vy endPoint]>
             (<[(bufferIndex + 3)%nat := vx endPoint]>
             (<[(bufferIndex + 2)%nat := vz startPoint]>
             (<[(bufferIndex + 1)%nat := vy startPoint]>
             (<[bufferIndex := vx startPoint]> pos))))) in
  let ld := <[vertexIndex := distance]> ld in
  let distance := distance + distanceTo startPoint endPoint in
  let ld := <[(vertexIndex + 1)%nat := distance]> ld in
  (pos, ld, distance).

(** [setCurve(curveIndex, controlPoints, color, metadata)] *)
Definition setCurve (k : Z) (cps : list vec3) (c : ColorArg) (m : Meta)
    (s : Curves) : option Curves :=
  if out_of_range s k then Some s else
  if (length cps <? 2)%nat then Some s else
  match curveData s !! Z.to_nat k with
  | None => None
  | Some _ =>
      let cd := {| controlPoints := cps; cd_color := c; visible := true;
                   metadata := m |} in
      let s1 := with_curveData s (<[Z.to_nat k := cd]> (curveData s)) in
      let points := getPoints cps (segmentsPerCurve s) in
      let vertexOffset := (Z.to_nat k * verticesPerCurve s)%nat in
      let '(pos, ld, _) :=
        fold_left (curve_segment points vertexOffset) (seq 0 (segmentsPerCurve s))
          (positions s, lineDistances s, 0) in
      let s2 := with_buffers s1 pos (colors s1) ld in
      match _applyColorToCurve k s2 with
      | None => None
      | Some s3 =>
          let s4 := with_flags s3 true (needsColorUpdate s3) true in
          if (currentCurveCount s4 <=? k)%Z
          then Some (updateDrawRange (with_count s4 (k + 1)%Z (drawCount s4)))
          else Some s4
      end
  end.

(** [setCurveColor(curveIndex, color, metadata)]; [None] for the
    [metadata] argument is [undefined]. *)
Definition setCurveColor (k : Z) (c : ColorArg) (m : option Meta)
    (s : Curves) : option Curves :=
  if out_of_range s k then Some s else
  match curveData s !! Z.to_nat k with
  | None => None
  | Some cd =>
      if negb (visible cd) then Some s else
      let cd' := {| controlPoints := controlPoints cd; cd_color := c;
                    visible := visible cd;
                    metadata := match m with Some m' => m' | None => metadata cd end |} in
      _applyColorToCurve k (with_curveData s (<[Z.to_nat k := cd']> (curveData s)))
  end.

(** [for (let i = 0; i < n; i++) buf[offset + i] = 0] *)
Definition zero_range (buf : list R) (offset n : nat) : list R :=
  fold_left (fun b i => <[(offset + i)%nat := 0]> b) (seq 0 n) buf.

(** [hideCurve(curveIndex)] *)
Definition hideCurve (k : Z) (s : Curves) : option Curves :=
  if out_of_range s k then Some s else
  match curveData s !! Z.to_nat k with
  | None => None
  | Some cd =>
      let cd' := {| controlPoints := controlPoints cd; cd_color := cd_color cd;
                    visible := false; metadata := metadata cd |} in
      let s1 := with_curveData s (<[Z.to_nat k := cd']> (curveData s)) in
      let vertexOffset := (Z.to_nat k * verticesPerCurve s * 3)%nat in
      let totalVertices := (verticesPerCurve s * 3)%nat in
      let pos := zero_range (positions s1) vertexOffset totalVertices in
      let distanceOffset := (Z.to_nat k * verticesPerCurve s)%nat in
      let ld := zero_range (lineDistances s1) distanceOffset (verticesPerCurve s) in
      Some (with_flags (with_buffers s1 pos (colors s1) ld)
              true (needsColorUpdate s1) true)
  end.

(** [setVisibleCurveCount(count)] *)
Definition setVisibleCurveCount (count : Z) (s : Curves) : Curves :=
  updateDrawRange (with_count s (Z.min count (Z.of_nat (maxCurves s))) (drawCount s)).

(** [applyUpdates()]: each [needsUpdate = true] is an upload. *)
Definition applyUpdates (s : Curves) : Curves :=
  let '(np, vp) := if needsPositionUpdate s then (false, S (positionVersion s))
                   else (needsPositionUpdate s, positionVersion s) in
  let '(nc, vc) := if needsColorUpdate s then (false, S (colorVersion s))
                   else (needsColorUpdate s, colorVersion s) in
  let '(nl, vl) :=
    if createMaterialDashed (dashSize s) && needsLineDistanceUpdate s
    then (false, S (lineDistanceVersion s))
    else if Req_EM_T (dashSize s) 0 then (false, lineDistanceVersion s)
    else (needsLineDistanceUpdate s, lineDistanceVersion s) in
  with_versions (with_flags s np nc nl) vp vc vl.

(** [updateMaterial()] *)
Definition updateMaterial (s : Curves) : Curves :=
  if negb (meshPresent s) then s else
  let s1 := with_material s (dashSize s) (gapSize s) true
              (createMaterialDashed (dashSize s)) in
  if Rlt_dec 0 (dashSize s)
  then with_flags s1 (needsPositionUpdate s1) (needsColorUpdate s1) true
  else s1.

(** [setDashPattern(dashSize, gapSize)] *)
Definition setDashPattern (d g : R) (s : Curves) : Curves :=
  let nextDash := Rmax 0 d in
  let nextGap := Rmax 0 g in
  if Req_EM_T (dashSize s) nextDash then
    if Req_EM_T (gapSize s) nextGap then s
    else updateMaterial (with_material s nextDash nextGap (meshPresent s) (materialDashed s))
  else updateMaterial (with_material s nextDash nextGap (meshPresent s) (materialDashed s)).

(** [remove()] *)
Definition remove (s : Curves) : Curves :=
  let s1 := if meshPresent s
            then with_material s (dashSize s) (gapSize s) false (materialDashed s)
            else s in
  with_curveData s1 [].

(** The mutating calls on a [Curves] object *)
Inductive op :=
| OSetCurve (k : Z) (cps : list vec3) (c : ColorArg) (m : Meta)
| OSetCurveColor (k : Z) (c : ColorArg) (m : option Meta)
| OHideCurve (k : Z)
| OSetVisibleCurveCount (n : Z)
| OApplyUpdates
| OSetDashPattern (d g : R)
| ORemove.

(** One call; [None] when the call throws (before any store). *)
Definition step (s : Curves) (o : op) : option Curves :=
  match o with
  | OSetCurve k cps c m => setCurve k cps c m s
  | OSetCurveColor k c m => setCurveColor k c m s
  | OHideCurve k => hideCurve k s
  | OSetVisibleCurveCount n => Some (setVisibleCurveCount n s)
  | OApplyUpdates => Some (applyUpdates s)
  | OSetDashPattern d g => Some (setDashPattern d g s)
  | ORemove => Some (remove s)
  end.

(** A sequence of calls by a caller that catches what a call throws: a
    throwing call leaves the object as it was. *)
Fixpoint run (s : Curves) (ops : list op) : Curves :=
  match ops with
  | [] => s
  | o :: ops' => match step s o with
                 | Some s' => run s' ops'
                 | None => run s ops'
                 end
  end.

(** [isCurveVisible(curveIndex)] *)
Definition isCurveVisible (k : Z) (s : Curves) : option bool :=
  if out_of_range s k then Some false else
  match curveData s !! Z.to_nat k with
  | None => None
  | Some cd => Some (visible cd)
  end.

(** [getCurve(curveIndex)]: [Some None] is [null], [Some (Some cps)] the
    [CatmullRomCurve3] over [cps]; [None] is a thrown [TypeError]. *)
Definition getCurve (k : Z) (s : Curves) : option (option (list vec3)) :=
  if out_of_range s k then Some None else
  match curveData s !! Z.to_nat k with
  | None => None
  | Some cd =>
      if negb (visible cd) || (length (controlPoints cd) <? 2)%nat then Some None
      else Some (Some (controlPoints cd))
  end.

(** [getPointAt(curveIndex, t)] *)
Definition getPointAt (k : Z) (t : R) (s : Curves) : option vec3 :=
  match getCurve k s with
  | None => None
  | Some None => Some vzero
  | Some (Some cps) => Some (Three.getPointAt cps t)
  end.

(** [getTangentAt(curveIndex, t)] *)
Definition getTangentAt (k : Z) (t : R) (s : Curves) : option vec3 :=
  match getCurve k s with
  | None => None
  | Some None => Some (V3 0 0 1)
  | Some (Some cps) => Some (Three.getTangentAt cps t)
  end.

(** [exists()]: [this.mesh !== null] ([exists] is a keyword of Rocq) *)
Definition exists_ (s : Curves) : bool := meshPresent s.

(** [getMaxCurves()] and [getCurrentCurveCount()] *)
Definition getMaxCurves (s : Curves) : nat := maxCurves s.

Definition getCurrentCurveCount (s : Curves) : Z := currentCurveCount s.

End Curves.

Import Curves.

(** ** [FlightPathManager] (src/src/FlightPathManager.ts), the caller of
    [setDashPattern] and [applyUpdates].  [getMergedCurves()] returns the
    renderer that [main.ts] shares with it ([None] for [null]); the state
    below is that renderer's, together with the manager's [params]. *)
Module FlightPath.

Record FlightPathManager := {
  params_dashSize : R;
  params_gapSize : R;
  mergedCurves : option Curves
}.

(** [applyDashPattern()] *)
Definition applyDashPattern (m : FlightPathManager) : FlightPathManager :=
  match mergedCurves m with
  | None => m
  | Some c =>
      {| params_dashSize := params_dashSize m; params_gapSize := params_gapSize m;
         mergedCurves :=
           Some (applyUpdates (setDashPattern (params_dashSize m) (params_gapSize m) c)) |}
  end.

(** [setDashSize(value)]: [Number(value)] of a number is the number; [None]
    is a non-finite one (NaN or an infinity).  The optional [syncDashSize]
    callback only updates the GUI and is not part of this state. *)
Definition setDashSize (value : option R) (m : FlightPathManager) : FlightPathManager :=
  let dashSize := match value with Some v => v | None => params_dashSize m end in
  if Req_EM_T (params_dashSize m) dashSize then m
  else applyDashPattern {| params_dashSize := dashSize; params_gapSize := params_gapSize m;
                           mergedCurves := mergedCurves m |}.

End FlightPath.

Import FlightPath.

(** ** [Controls.formatColor] (src/unnamed/part_000) *)
Module Controls.

Import Stdlib.Strings.String Stdlib.Strings.Ascii.
Local Open Scope string_scope.

(** The argument of [formatColor]: a string, a finite number, a non-finite
    number (NaN or an infinity), or a [ColorObject] with its optional
    [r]/[red], [g]/[green], [b]/[blue] fields. *)
Inductive ColorValue :=
| VString (str : string)
| VNumber (x : R)
| VNonFinite
| VObject (r red g green b blue : option R).

(** [Math.round] *)
Definition js_round (x : R) : Z := Int_part (x + 1 / 2).

(** [a ?? b ?? 0] *)
Definition nullish (a b : option R) : R :=
  match a with
  | Some x => x
  | None => match b with Some y => y | None => 0 end
  end.

(** A digit of [Number.prototype.toString(16)]: [0-9a-f]. *)
Definition hex_digit (d : Z) : ascii :=
  if (d <? 10)%Z then ascii_of_nat (48 + Z.to_nat d)
  else ascii_of_nat (87 + Z.to_nat d).

(** The hexadecimal digits of [n >= 0], most significant first, in front
    of [acc]; [fuel] bounds the number of digits. *)
Fixpoint hex_digits (fuel : nat) (n : Z) (acc : string) : string :=
  match fuel with
  | O => acc
  | S fuel' =>
      let acc' := String (hex_digit (n mod 16)) acc in
      if (n / 16 =? 0)%Z then acc' else hex_digits fuel' (n / 16) acc'
  end.

(** Enough fuel: [n] has at most [log2 n + 1] hexadecimal digits. *)
Definition digit_fuel (n : Z) : nat := S (Z.to_nat (Z.log2 n)).

(** [x.toString(16)] for a finite number [x], as V8 computes it
    ([DoubleToRadixCString] of src/numbers/conversions.cc): the integer
    digits of [floor |x|], then, while the remaining fraction is at least
    half the distance to the next double ([delta]), fractional digits, the
    last one rounded to even (a carry can run back into the integer part).
    On a double, each float operation of that code (a product by 16, the
    subtraction of a digit, [floor]) is exact, so it is written over [R]. *)

(** [Double(v).NextDouble() - v] for a double [v >= 0]: [2^-1074] at 0 and
    below the normal range, [2^(e - 52)] for [2^e <= v < 2^(e + 1)]. *)
Definition next_double_gap (v : R) : R :=
  if Rle_dec v 0 then powerRZ 2 (-1074)
  else powerRZ 2 (Z.max (Int_part (ln v / ln 2)) (-1022) - 52).

(** The back-trace of the rounding: the written fractional digits, last
    first; [None] when the carry reaches the ['.'] (then [integer += 1]). *)
Fixpoint carry_back (rev_digits : list Z) : option (list Z) :=
  match rev_digits with
  | [] => None
  | d :: rest => if (d + 1 <? 16)%Z then Some ((d + 1)%Z :: rest) else carry_back rest
  end.

(** The [do { ... } while (fraction >= delta)] loop: the fractional digits,
    last first, and whether the integer part is incremented; the loop ends
    within [1100] rounds ([delta >= 2^-1074] grows 16-fold each round). *)
Fixpoint fraction_digits (fuel : nat) (fraction delta : R) (rev_digits : list Z)
    : list Z * bool :=
  match fuel with
  | O => (rev_digits, false)
  | S fuel' =>
      let fraction := (fraction * 16)%R in
      let delta := (delta * 16)%R in
      let digit := Int_part fraction in
      let rev_digits := digit :: rev_digits in
      let fraction := (fraction - IZR digit)%R in
      let round := if Rlt_dec (1 / 2) fraction then true
                   else if Req_EM_T fraction (1 / 2) then Z.odd digit else false in
      if round && (if Rlt_dec 1 (fraction + delta) then true else false) then
        match carry_back rev_digits with
        | Some rev' => (rev', false)
        | None => ([], true)
        end
      else if Rge_dec fraction delta then fraction_digits fuel' fraction delta rev_digits
      else (rev_digits, false)
  end.

(** The integer digits: [while (Double(integer / 16).Exponent() > 0)], i.e.
    while [integer / 16 >= 2^53], a ['0'] and [integer /= 16] (exact on a
    double that large); then the digits of what is left. *)
Fixpoint fill_zeros (fuel : nat) (integer : Z) (acc : string) : string :=
  match fuel with
  | O => hex_digits (digit_fuel integer) integer acc
  | S fuel' =>
      if (2 ^ 57 <=? integer)%Z then fill_zeros fuel' (integer / 16) (String "0" acc)
      else hex_digits (digit_fuel integer) integer acc
  end.

Definition digits_string (digits : list Z) : string :=
  fold_right (fun d acc => String (hex_digit d) acc) "" digits.

Definition numberToString16 (x : R) : string :=
  let negative := if Rlt_dec x 0 then true else false in
  let value := if negative then (- x)%R else x in
  let integer := Int_part value in
  let fraction := (value - IZR integer)%R in
  let delta := Rmax (powerRZ 2 (-1074)) (1 / 2 * next_double_gap value) in
  let '(rev_digits, carry) :=
    if Rge_dec fraction delta then fraction_digits 1100 fraction delta [] else ([], false) in
  let integer := if carry then (integer + 1)%Z else integer in
  let frac := match rev_digits with
              | [] => ""
              | _ => String "." (digits_string (rev rev_digits))
              end in
  let str := append (fill_zeros 1100 integer "") frac in
  if negative then String "-" str else str.

Fixpoint make_string (n : nat) (c : ascii) : string :=
  match n with O => "" | S n' => String c (make_string n' c) end.

(** [s.padStart(targetLength, padChar)] for a one-character [padChar] *)
Definition padStart (s : string) (targetLength : nat) (padChar : ascii) : string :=
  append (make_string (targetLength - length s) padChar) s.

(** [s.startsWith("#")] *)
Definition startsWith_hash (s : string) : bool :=
  match s with
  | String c _ => Ascii.eqb c "#"
  | EmptyString => false
  end.

(** [formatColor(value)]; [planeColor] is [this.guiControls.planeColor]. *)
Definition formatColor (planeColor : string) (value : ColorValue) : string :=
  match value with
  | VString str => if startsWith_hash str then str else String "#" str
  | VNumber x => String "#" (padStart (numberToString16 x) 6 "0")
  | VObject r red g green b blue =>
      let r := js_round (nullish r red) in
      let g := js_round (nullish g green) in
      let b := js_round (nullish b blue) in
      let hex := Z.land (Z.lor (Z.lor (Z.shiftl r 16) (Z.shiftl g 8)) b) (Z.ones 32) in
      String "#" (padStart (numberToString16 (IZR hex)) 6 "0")
  | VNonFinite => if String.eqb planeColor "" then "#ff6666" else planeColor
  end.

(** [guiControls.planeColor] as the constructor sets it *)
Definition initialPlaneColor : string := "#ff6666".

(** The [planeColor] option of [setup(callbacks, options)] ([None] for
    [undefined]) *)
Definition setup_planeColor (option_planeColor : option ColorValue)
    (planeColor : string) : string :=
  match option_planeColor with
  | Some v => formatColor planeColor v
  | None => planeColor
  end.

(** [setPlaneColor(value)]; the [updateDisplay()] of the GUI controller
    does not touch [guiControls]. *)
Definition setPlaneColor (value : ColorValue) (planeColor : string) : string :=
  formatColor planeColor value.

End Controls.

(** ** Properties *)

(** A small renderer used by the concrete instances below:
    [new Curves(scene, {maxCurves: 2, segmentsPerCurve: 1})]. *)
Definition small : Curves := new_Curves 2 1 None None.

Lemma applyColor_shape k s s' :
  _applyColorToCurve k s = Some s' ->
  s' = s \/ exists col,
    s' = with_flags (with_buffers s (positions s) col (lineDistances s))
           (needsPositionUpdate s) true (needsLineDistanceUpdate s).
Proof.
  unfold _applyColorToCurve.
  destruct (out_of_range s k); [intros [= <-]; auto |].
  destruct (curveData s !! Z.to_nat k) as [cd |]; [| discriminate].
  destruct (negb (visible cd)); [intros [= <-]; auto |].
  intros [= <-]. right. eexists. reflexivity.
Qed.

(** C5: an out-of-range slot or fewer than two control points make
    [setCurve] a silent no-op, whatever the state. *)
Theorem setCurve_invalid_noop (s : Curves) (k : Z) (cps : list vec3)
    (c : ColorArg) (m : Meta) :
  ((k < 0)%Z \/ (Z.of_nat (maxCurves s) <= k)%Z \/ (length cps < 2)%nat) ->
  setCurve k cps c m s = Some s.
Proof.
  intros H. unfold setCurve, out_of_range.
  destruct H as [H | [H | H]].
  - apply Z.ltb_lt in H. rewrite H. reflexivity.
  - apply Z.leb_le in H. rewrite H, orb_true_r. reflexivity.
  - apply Nat.ltb_lt in H. rewrite H.
    destruct ((k <? 0)%Z || (Z.of_nat (maxCurves s) <=? k)%Z); reflexivity.
Qed.

Lemma setCurve_invalid_noop_witness :
  ((2 < 0)%Z \/ (Z.of_nat (maxCurves small) <= 2)%Z \/ (length [vzero] < 2)%nat) /\
  setCurve 2 [vzero] COther MNull small = Some small.
Proof.
  split.
  - right; right. simpl. lia.
  - apply (setCurve_invalid_noop small 2 [vzero] COther MNull).
    right; right. simpl. lia.
Defined.

(** C8: [setCurveColor] on a slot whose visibility flag is false leaves
    the whole object unchanged (buffers, per-slot data, flags). *)
Theorem setCurveColor_hidden_noop (s : Curves) (k : Z) (cd : CurveData)
    (c : ColorArg) (m : option Meta) :
  (0 <= k)%Z ->
  curveData s !! Z.to_nat k = Some cd ->
  visible cd = false ->
  setCurveColor k c m s = Some s.
Proof.
  intros _ Hcd Hv. unfold setCurveColor.
  destruct (out_of_range s k); [reflexivity |].
  rewrite Hcd, Hv. reflexivity.
Qed.

Lemma setCurveColor_hidden_noop_witness :
  setCurveColor 1 (CHex 255) (Some MNull) small = Some small.
Proof.
  apply (setCurveColor_hidden_noop small 1
           {| controlPoints := []; cd_color := CHex 16777215;
              visible := false; metadata := MNull |}).
  - lia.
  - reflexivity.
  - reflexivity.
Defined.

(** C6, as stated, fails: [setVisibleCurveCount(-1)] leaves a negative
    curve count and a negative draw-range count. *)
Lemma setVisibleCurveCount_negative_cex :
  currentCurveCount (setVisibleCurveCount (-1) small) = (-1)%Z /\
  drawCount (setVisibleCurveCount (-1) small) = (-2)%Z /\
  ~ (0 <= currentCurveCount (setVisibleCurveCount (-1) small))%Z.
Proof. split; [reflexivity | split; [reflexivity |]]. cbn. lia. Qed.

(** C6 (amended): [setVisibleCurveCount(n)] sets the count to
    [min(n, maxCurves)] (an upper clamp only) and the draw-range count to
    that times [verticesPerCurve]; for [n >= 0] the count is in
    [[0, maxCurves]]. *)
Theorem setVisibleCurveCount_spec (n : Z) (s : Curves) :
  currentCurveCount (setVisibleCurveCount n s) = Z.min n (Z.of_nat (maxCurves s)) /\
  drawCount (setVisibleCurveCount n s) =
    (Z.min n (Z.of_nat (maxCurves s)) * Z.of_nat (verticesPerCurve s))%Z /\
  ((0 <= n)%Z ->
   (0 <= currentCurveCount (setVisibleCurveCount n s) <= Z.of_nat (maxCurves s))%Z).
Proof.
  cbn. split; [reflexivity | split; [reflexivity | lia]].
Qed.

(** The fields that the slot-mutating calls never touch. *)
Definition frame (s s' : Curves) : Prop :=
  maxCurves s' = maxCurves s /\ segmentsPerCurve s' = segmentsPerCurve s /\
  dashSize s' = dashSize s /\ gapSize s' = gapSize s /\
  meshPresent s' = meshPresent s /\ materialDashed s' = materialDashed s /\
  positionVersion s' = positionVersion s /\ colorVersion s' = colorVersion s /\
  lineDistanceVersion s' = lineDistanceVersion s.

Lemma frame_refl s : frame s s.
Proof. repeat split. Qed.

Lemma frame_trans s1 s2 s3 : frame s1 s2 -> frame s2 s3 -> frame s1 s3.
Proof. unfold frame. intuition congruence. Qed.

Lemma applyColor_frame k s s' :
  _applyColorToCurve k s = Some s' ->
  frame s s' /\ currentCurveCount s' = currentCurveCount s /\
  drawCount s' = drawCount s /\ curveData s' = curveData s /\
  positions s' = positions s /\ lineDistances s' = lineDistances s /\
  needsPositionUpdate s' = needsPositionUpdate s /\
  needsLineDistanceUpdate s' = needsLineDistanceUpdate s.
Proof.
  intros H. apply applyColor_shape in H as [-> | [col ->]].
  - repeat split.
  - repeat split.
Qed.

Lemma setCurve_frame k cps c m s s' :
  setCurve k cps c m s = Some s' -> frame s s'.
Proof.
  unfold setCurve.
  destruct (out_of_range s k); [intros [= <-]; apply frame_refl |].
  destruct (length cps <? 2)%nat; [intros [= <-]; apply frame_refl |].
  destruct (curveData s !! Z.to_nat k); [| discriminate].
  destruct (fold_left _ _ _) as [[pos ld] dist].
  destruct (_applyColorToCurve k _) as [s3 |] eqn:E3; [| discriminate].
  apply applyColor_frame in E3 as [F3 _].
  destruct (currentCurveCount _ <=? k)%Z; intros [= <-];
    (eapply frame_trans; [| eapply frame_trans; [exact F3 |]]);
    try apply frame_refl; repeat split.
Qed.

Lemma setCurveColor_frame k c m s s' :
  setCurveColor k c m s = Some s' -> frame s s'.
Proof.
  unfold setCurveColor.
  destruct (out_of_range s k); [intros [= <-]; apply frame_refl |].
  destruct (curveData s !! Z.to_nat k) as [cd |]; [| discriminate].
  destruct (negb (visible cd)); [intros [= <-]; apply frame_refl |].
  intros H. apply applyColor_frame in H as [F _].
  eapply frame_trans; [| exact F]. repeat split.
Qed.

Lemma hideCurve_frame k s s' :
  hideCurve k s = Some s' -> frame s s'.
Proof.
  unfold hideCurve.
  destruct (out_of_range s k); [intros [= <-]; apply frame_refl |].
  destruct (curveData s !! Z.to_nat k); [| discriminate].
  intros [= <-]. repeat split.
Qed.

(** States reached from a constructed object by a sequence of calls. *)
Definition reachable_from (s0 s : Curves) : Prop :=
  exists ops, run s0 ops = s.

Definition dash_option_ok (od : option R) : Prop :=
  match od with Some d => 0 <= d | None => True end.

Lemma step_dash_nonneg s o s' :
  0 <= dashSize s -> step s o = Some s' -> 0 <= dashSize s'.
Proof.
  intros H. destruct o; simpl.
  - intros E. apply setCurve_frame in E as (_ & _ & -> & _). exact H.
  - intros E. apply setCurveColor_frame in E as (_ & _ & -> & _). exact H.
  - intros E. apply hideCurve_frame in E as (_ & _ & -> & _). exact H.
  - intros [= <-]. exact H.
  - intros [= <-]. unfold applyUpdates.
    destruct (if needsPositionUpdate s then _ else _).
    destruct (if needsColorUpdate s then _ else _).
    destruct (if _ && _ then _ else _). exact H.
  - intros [= <-]. unfold setDashPattern, updateMaterial.
    assert (0 <= Rmax 0 d) by apply Rmax_l.
    destruct (Req_EM_T _ _); [destruct (Req_EM_T _ _); [exact H |] |];
      simpl; destruct (meshPresent s); simpl; try exact H0;
      destruct (Rlt_dec _ _); exact H0.
  - intros [= <-]. unfold remove. destruct (meshPresent s); exact H.
Qed.

Lemma run_dash_nonneg s ops : 0 <= dashSize s -> 0 <= dashSize (run s ops).
Proof.
  revert s. induction ops as [| o ops IH]; intros s H; simpl; [exact H |].
  destruct (step s o) eqn:E; apply IH; [eapply step_dash_nonneg; eauto | exact H].
Qed.

(** C9: from a constructor with [dashSize >= 0] (the configuration of the
    spec), every reached state is flushed by one [applyUpdates]: the three
    dirty flags are cleared and a second call changes nothing (no upload
    counter moves); and with [dashSize = 0] [applyUpdates] never uploads
    the line distances. *)
Theorem applyUpdates_idempotent (mc seg : nat) (od og : option R)
    (s : Curves) :
  dash_option_ok od ->
  reachable_from (new_Curves mc seg od og) s ->
  needsPositionUpdate (applyUpdates s) = false /\
  needsColorUpdate (applyUpdates s) = false /\
  needsLineDistanceUpdate (applyUpdates s) = false /\
  applyUpdates (applyUpdates s) = applyUpdates s /\
  (dashSize s = 0 -> lineDistanceVersion (applyUpdates s) = lineDistanceVersion s).
Proof.
  intros Hd [ops <-].
  assert (H0 : 0 <= dashSize (run (new_Curves mc seg od og) ops)).
  { apply run_dash_nonneg. destruct od; simpl; [exact Hd | lra]. }
  set (t := run _ ops) in *. clearbody t.
  destruct t as [mx sg d g pos col ld cc dc np nc nl cd mesh dashed vp vc vl].
  simpl in H0.
  unfold applyUpdates, createMaterialDashed; simpl.
  destruct (Rlt_dec 0 d) as [Hp | Hp].
  - destruct (Req_EM_T d 0) as [Hz | Hz]; [lra |].
    destruct np, nc, nl; simpl;
      repeat (destruct (Rlt_dec _ _); try lra); simpl;
      repeat (destruct (Req_EM_T _ _); try lra); simpl;
      repeat split; intros; lra.
  - destruct (Req_EM_T d 0) as [Hz | Hz]; [| lra].
    destruct np, nc, nl; simpl;
      repeat (destruct (Rlt_dec _ _); try lra); simpl;
      repeat (destruct (Req_EM_T _ _); try lra); simpl;
      repeat split.
Qed.


Lemma setCurve_count k cps c m s s' :
  setCurve k cps c m s = Some s' ->
  currentCurveCount s' = currentCurveCount s \/
  ((currentCurveCount s <= k)%Z /\ currentCurveCount s' = (k + 1)%Z /\
   out_of_range s k = false /\ (2 <= length cps)%nat).
Proof.
  unfold setCurve.
  destruct (out_of_range s k) eqn:Er; [intros [= <-]; auto |].
  destruct (length cps <? 2)%nat eqn:El; [intros [= <-]; auto |].
  apply Nat.ltb_ge in El.
  destruct (curveData s !! Z.to_nat k); [| discriminate].
  destruct (fold_left _ _ _) as [[pos ld] dist].
  destruct (_applyColorToCurve k _) as [s3 |] eqn:E3; [| discriminate].
  apply applyColor_frame in E3 as (_ & Ec & _).
  simpl in Ec. simpl. rewrite Ec.
  destruct (currentCurveCount s <=? k)%Z eqn:Ek; intros [= <-].
  - right. apply Z.leb_le in Ek. simpl. auto.
  - left. simpl. exact Ec.
Qed.

Lemma setCurve_live k cps c m s :
  length (curveData s) = maxCurves s ->
  exists s', setCurve k cps c m s = Some s'.
Proof.
  intros Hl. unfold setCurve.
  destruct (out_of_range s k) eqn:Er; [eauto |].
  destruct (length cps <? 2)%nat; [eauto |].
  unfold out_of_range in Er. apply orb_false_iff in Er as [E1 E2].
  apply Z.ltb_ge in E1. apply Z.leb_gt in E2.
  destruct (curveData s !! Z.to_nat k) eqn:Ecd.
  2:{ apply lookup_ge_None in Ecd. lia. }
  destruct (fold_left _ _ _) as [[pos ld] dist].
  unfold _applyColorToCurve, out_of_range. simpl.
  assert (Hk : ((k <? 0)%Z || (Z.of_nat (maxCurves s) <=? k)%Z) = false).
  { apply orb_false_iff. split; [apply Z.ltb_ge | apply Z.leb_gt]; lia. }
  rewrite Hk. rewrite list_lookup_insert_eq by (rewrite <- Hl in E2; lia).
  simpl. destruct (currentCurveCount s <=? k)%Z; eauto.
Qed.

(** C4: a [setCurve] that stores a curve ([k] in range, at least two
    control points) sets the count to [k+1] when [k >= currentCurveCount]
    and leaves it otherwise, and it completes on every live object (one
    with its per-slot array, i.e. not [remove()]d); [hideCurve] never
    changes the count; every call other than [setVisibleCurveCount]
    leaves the count equal or larger. *)
Theorem currentCurveCount_monotone :
  (forall s k cps c m s',
     (0 <= k < Z.of_nat (maxCurves s))%Z -> (2 <= length cps)%nat ->
     setCurve k cps c m s = Some s' ->
     currentCurveCount s' =
       (if (currentCurveCount s <=? k)%Z then k + 1 else currentCurveCount s)%Z) /\
  (forall s k cps c m,
     length (curveData s) = maxCurves s ->
     exists s', setCurve k cps c m s = Some s') /\
  (forall s k s', hideCurve k s = Some s' ->
     currentCurveCount s' = currentCurveCount s) /\
  (forall s o s', (forall n, o <> OSetVisibleCurveCount n) ->
     step s o = Some s' -> (currentCurveCount s <= currentCurveCount s')%Z).
Proof.
  split; [| split; [| split]].
  - intros s k cps c m s' Hk Hl E.
    pose proof E as E'. unfold setCurve in E'.
    assert (Hr : out_of_range s k = false).
    { unfold out_of_range. apply orb_false_iff.
      split; [apply Z.ltb_ge | apply Z.leb_gt]; lia. }
    apply setCurve_count in E as [E | (Hle & E & _)].
    + destruct (currentCurveCount s <=? k)%Z eqn:Ek; [| exact E].
      exfalso. revert E'. rewrite Hr.
      assert (Hl2 : (length cps <? 2)%nat = false) by (apply Nat.ltb_ge; lia).
      rewrite Hl2.
      destruct (curveData s !! Z.to_nat k); [| discriminate].
      destruct (fold_left _ _ _) as [[pos ld] dist].
      destruct (_applyColorToCurve k _) as [s3 |] eqn:E3; [| discriminate].
      apply applyColor_frame in E3 as (_ & Ec & _). simpl in Ec.
      simpl. rewrite Ec, Ek. intros [= <-]. simpl in E.
      apply Z.leb_le in Ek. lia.
    + apply Z.leb_le in Hle. rewrite Hle. exact E.
  - intros s k cps c m. apply setCurve_live.
  - intros s k s'. unfold hideCurve.
    destruct (out_of_range s k); [intros [= <-]; reflexivity |].
    destruct (curveData s !! Z.to_nat k); [| discriminate].
    intros [= <-]. reflexivity.
  - intros s o s' Hn. destruct o; simpl.
    + intros E. apply setCurve_count in E as [-> | (? & -> & _)]; lia.
    + unfold setCurveColor.
      destruct (out_of_range s k); [intros [= <-]; lia |].
      destruct (curveData s !! Z.to_nat k) as [cd |]; [| discriminate].
      destruct (negb (visible cd)); [intros [= <-]; lia |].
      intros E. apply applyColor_frame in E as (_ & -> & _). simpl. lia.
    + unfold hideCurve.
      destruct (out_of_range s k); [intros [= <-]; lia |].
      destruct (curveData s !! Z.to_nat k); [| discriminate].
      intros [= <-]. simpl. lia.
    + exfalso. exact (Hn n eq_refl).
    + intros [= <-]. unfold applyUpdates.
      destruct (if needsPositionUpdate s then _ else _).
      destruct (if needsColorUpdate s then _ else _).
      destruct (if _ && _ then _ else _). simpl. lia.
    + intros [= <-]. unfold setDashPattern, updateMaterial.
      destruct (Req_EM_T _ _); [destruct (Req_EM_T _ _); [lia |] |];
        simpl; destruct (meshPresent s); simpl; try lia;
        destruct (Rlt_dec _ _); simpl; lia.
    + intros [= <-]. unfold remove. destruct (meshPresent s); simpl; lia.
Qed.

(** *** Where each call stores *)

Lemma write_rgb_lookup_ne buf bi c x :
  (x < bi \/ bi + 3 <= x)%nat -> write_rgb buf bi c !! x = buf !! x.
Proof.
  intros H. unfold write_rgb.
  rewrite !list_lookup_insert_ne by lia. reflexivity.
Qed.

Lemma color_fold_lookup_ne seg gp solid voff (l : list nat) col x :
  (forall si, In si l -> x < (voff + si * 2) * 3 \/ (voff + si * 2) * 3 + 6 <= x)%nat ->
  fold_left (color_segment seg gp solid voff) l col !! x = col !! x.
Proof.
  revert col. induction l as [| si l IH]; intros col H; simpl; [reflexivity |].
  rewrite IH by (intros; apply H; simpl; auto).
  assert (Hs := H si (or_introl eq_refl)).
  unfold color_segment, verticesPerSegment.
  destruct gp; rewrite !write_rgb_lookup_ne by lia; reflexivity.
Qed.

Lemma curve_fold_lookup_ne points voff (l : list nat) acc x :
  (forall si, In si l -> x < (voff + si * 2) * 3 \/ (voff + si * 2) * 3 + 6 <= x)%nat ->
  (fold_left (curve_segment points voff) l acc).1.1 !! x = acc.1.1 !! x.
Proof.
  revert acc. induction l as [| si l IH]; intros acc H; simpl; [reflexivity |].
  rewrite IH by (intros; apply H; simpl; auto).
  assert (Hs := H si (or_introl eq_refl)).
  destruct acc as [[pos ld] d]. unfold curve_segment, verticesPerSegment. simpl.
  rewrite !list_lookup_insert_ne by lia. reflexivity.
Qed.

Lemma curve_fold_ld_lookup_ne points voff (l : list nat) acc x :
  (forall si, In si l -> x < voff + si * 2 \/ voff + si * 2 + 2 <= x)%nat ->
  (fold_left (curve_segment points voff) l acc).1.2 !! x = acc.1.2 !! x.
Proof.
  revert acc. induction l as [| si l IH]; intros acc H; simpl; [reflexivity |].
  rewrite IH by (intros; apply H; simpl; auto).
  assert (Hs := H si (or_introl eq_refl)).
  destruct acc as [[pos ld] d]. unfold curve_segment, verticesPerSegment. simpl.
  rewrite !list_lookup_insert_ne by lia. reflexivity.
Qed.

Lemma zero_range_lookup_ne buf off n x :
  (x < off \/ off + n <= x)%nat -> zero_range buf off n !! x = buf !! x.
Proof.
  unfold zero_range. intros H.
  assert (G : forall (l : list nat) (b : list R), (forall i, In i l -> x <> off + i)%nat ->
            fold_left (fun b i => <[(off + i)%nat := 0]> b) l b !! x = b !! x).
  { induction l as [| i l IH]; intros b Hl; simpl; [reflexivity |].
    rewrite IH by (intros; apply Hl; simpl; auto).
    apply list_lookup_insert_ne. intros E. apply (Hl i); simpl; auto. }
  apply G. intros i Hi. apply in_seq in Hi. lia.
Qed.

(** The slot regions of the three buffers: [verticesPerCurve * 3] floats of
    [positions] and [colors], [verticesPerCurve] floats of [lineDistances]. *)
Definition in_region (width j x : nat) : Prop :=
  (j * width <= x < (j + 1) * width)%nat.

Lemma region_disjoint width i j x y :
  i <> j -> in_region width j x -> in_region width i y -> x <> y.
Proof.
  unfold in_region. intros Hij Hx Hy ->.
  destruct (Nat.lt_ge_cases i j) as [Hlt | Hge].
  - assert ((i + 1) * width <= j * width)%nat by (apply Nat.mul_le_mono_r; lia). lia.
  - assert ((j + 1) * width <= i * width)%nat by (apply Nat.mul_le_mono_r; lia). lia.
Qed.

Lemma region_outside width i j x :
  i <> j -> in_region width j x -> (x < i * width \/ (i + 1) * width <= x)%nat.
Proof.
  unfold in_region. intros Hij Hx.
  destruct (Nat.lt_ge_cases i j) as [Hlt | Hge].
  - assert ((i + 1) * width <= j * width)%nat by (apply Nat.mul_le_mono_r; lia). lia.
  - assert ((j + 1) * width <= i * width)%nat by (apply Nat.mul_le_mono_r; lia). lia.
Qed.

Lemma applyColor_isolation k s s' j x :
  _applyColorToCurve k s = Some s' -> Z.to_nat k <> j ->
  in_region (verticesPerCurve s * 3) j x ->
  colors s' !! x = colors s !! x.
Proof.
  unfold _applyColorToCurve.
  destruct (out_of_range s k); [intros [= <-]; reflexivity |].
  destruct (curveData s !! Z.to_nat k) as [cd |]; [| discriminate].
  destruct (negb (visible cd)); [intros [= <-]; reflexivity |].
  intros [= <-] Hkj Hx. simpl.
  apply color_fold_lookup_ne. intros si Hsi. apply in_seq in Hsi.
  apply (region_outside _ (Z.to_nat k)) in Hx; [| exact Hkj].
  unfold verticesPerCurve, verticesPerSegment in *. nia.
Qed.

(** Slot [j]'s part of the three buffers is the same in [s] and [s']. *)
Definition slot_unchanged (s s' : Curves) (j : nat) : Prop :=
  forall x,
    (in_region (verticesPerCurve s * 3) j x ->
       positions s' !! x = positions s !! x /\ colors s' !! x = colors s !! x) /\
    (in_region (verticesPerCurve s) j x ->
       lineDistances s' !! x = lineDistances s !! x).

Lemma slot_unchanged_refl s j : slot_unchanged s s j.
Proof. intros x. split; auto. Qed.

Lemma slot_unchanged_trans s1 s2 s3 j :
  frame s1 s2 -> slot_unchanged s1 s2 j -> slot_unchanged s2 s3 j ->
  slot_unchanged s1 s3 j.
Proof.
  intros (_ & Hseg & _) H12 H23 x.
  destruct (H12 x) as [A1 B1]. destruct (H23 x) as [A2 B2].
  unfold verticesPerCurve in *. rewrite Hseg in A2, B2. split.
  - intros Hx. destruct (A1 Hx) as [<- <-]. apply A2. exact Hx.
  - intros Hx. rewrite B2, B1 by exact Hx. reflexivity.
Qed.

Lemma setCurve_isolation k cps c m s s' j :
  setCurve k cps c m s = Some s' -> Z.to_nat k <> j -> slot_unchanged s s' j.
Proof.
  unfold setCurve.
  destruct (out_of_range s k); [intros [= <-]; intros; apply slot_unchanged_refl |].
  destruct (length cps <? 2)%nat; [intros [= <-]; intros; apply slot_unchanged_refl |].
  destruct (curveData s !! Z.to_nat k); [| discriminate].
  destruct (fold_left _ _ _) as [[pos ld] dist] eqn:Ef.
  destruct (_applyColorToCurve k _) as [s3 |] eqn:E3; [| discriminate].
  intros Hs' Hkj x.
  assert (Hpos : positions s' = positions s3 /\ colors s' = colors s3 /\
                 lineDistances s' = lineDistances s3).
  { destruct (currentCurveCount _ <=? k)%Z; injection Hs' as <-; auto. }
  destruct Hpos as (-> & -> & ->).
  pose proof E3 as E3'.
  apply applyColor_frame in E3 as (_ & _ & _ & _ & Hp & Hl & _).
  rewrite Hp, Hl. simpl. split.
  - intros Hx. split.
    + pose proof (curve_fold_lookup_ne (getPoints cps (segmentsPerCurve s))
                    (Z.to_nat k * verticesPerCurve s) (seq 0 (segmentsPerCurve s))
                    (positions s, lineDistances s, 0) x) as G.
      rewrite Ef in G. apply G. intros si Hsi. apply in_seq in Hsi.
      apply (region_outside _ (Z.to_nat k)) in Hx; [| exact Hkj].
      unfold verticesPerCurve, verticesPerSegment in *. nia.
    + rewrite (applyColor_isolation _ _ _ j x E3' Hkj) by exact Hx. reflexivity.
  - intros Hx.
    pose proof (curve_fold_ld_lookup_ne (getPoints cps (segmentsPerCurve s))
                  (Z.to_nat k * verticesPerCurve s) (seq 0 (segmentsPerCurve s))
                  (positions s, lineDistances s, 0) x) as G.
    rewrite Ef in G. apply G. intros si Hsi. apply in_seq in Hsi.
    apply (region_outside _ (Z.to_nat k)) in Hx; [| exact Hkj].
    unfold verticesPerCurve, verticesPerSegment in *. nia.
Qed.

Lemma setCurveColor_isolation k c m s s' j :
  setCurveColor k c m s = Some s' -> Z.to_nat k <> j -> slot_unchanged s s' j.
Proof.
  unfold setCurveColor.
  destruct (out_of_range s k); [intros [= <-]; intros; apply slot_unchanged_refl |].
  destruct (curveData s !! Z.to_nat k) as [cd |]; [| discriminate].
  destruct (negb (visible cd)); [intros [= <-]; intros; apply slot_unchanged_refl |].
  intros E Hkj x. pose proof E as E'.
  apply applyColor_frame in E as (_ & _ & _ & _ & Hp & Hl & _).
  rewrite Hp, Hl. split; [| reflexivity].
  intros Hx. split; [reflexivity |].
  apply (applyColor_isolation _ _ _ j x E' Hkj). exact Hx.
Qed.

Lemma hideCurve_isolation k s s' j :
  hideCurve k s = Some s' -> Z.to_nat k <> j -> slot_unchanged s s' j.
Proof.
  unfold hideCurve.
  destruct (out_of_range s k); [intros [= <-]; intros; apply slot_unchanged_refl |].
  destruct (curveData s !! Z.to_nat k); [| discriminate].
  intros [= <-] Hkj x. simpl. split.
  - intros Hx. split; [| reflexivity].
    apply zero_range_lookup_ne.
    apply (region_outside _ (Z.to_nat k)) in Hx; [| exact Hkj].
    unfold verticesPerCurve, verticesPerSegment in *. nia.
  - intros Hx. apply zero_range_lookup_ne.
    apply (region_outside _ (Z.to_nat k)) in Hx; [| exact Hkj].
    unfold verticesPerCurve, verticesPerSegment in *. nia.
Qed.

(** The calls that target one slot. *)
Definition targets (i : Z) (o : op) : Prop :=
  match o with
  | OSetCurve k _ _ _ | OSetCurveColor k _ _ | OHideCurve k => k = i
  | _ => False
  end.

(** C2: for distinct slots [i] and [j] in [[0, maxCurves)], any sequence of
    [setCurve]/[setCurveColor]/[hideCurve] calls on slot [i] (each one
    completing or throwing) leaves every entry of slot [j]'s regions of
    [positions], [colors] and [lineDistances] unchanged. *)
Theorem slot_isolation (s : Curves) (i j : Z) (ops : list op) :
  (0 <= i < Z.of_nat (maxCurves s))%Z ->
  (0 <= j < Z.of_nat (maxCurves s))%Z ->
  i <> j ->
  Forall (targets i) ops ->
  slot_unchanged s (run s ops) (Z.to_nat j).
Proof.
  intros Hi Hj Hij Hops.
  assert (Hn : Z.to_nat i <> Z.to_nat j) by lia.
  clear Hi Hj Hij. revert s. induction Hops as [| o ops Ho Hops IH]; intros s.
  - apply slot_unchanged_refl.
  - simpl. destruct (step s o) as [s1 |] eqn:E; [| apply IH].
    destruct o; simpl in Ho; try contradiction; subst k; simpl in E.
    + eapply slot_unchanged_trans;
        [eapply setCurve_frame, E | eapply setCurve_isolation; eauto | apply IH].
    + eapply slot_unchanged_trans;
        [eapply setCurveColor_frame, E | eapply setCurveColor_isolation; eauto | apply IH].
    + eapply slot_unchanged_trans;
        [eapply hideCurve_frame, E | eapply hideCurve_isolation; eauto | apply IH].
Qed.

Lemma slot_isolation_witness :
  slot_unchanged small
    (run small [OSetCurve 0 [vzero; V3 10 0 0] (CColor (RGB 1 0 0)) MNull;
                OSetCurveColor 0 COther None; OHideCurve 0]) 1%nat.
Proof.
  apply (slot_isolation small 0 1); simpl; try lia.
  repeat constructor.
Defined.

(** *** The zero-region invariant *)

Definition region_zero (buf : list R) (width j : nat) : Prop :=
  forall x, in_region width j x -> buf !! x = Some 0.

Lemma repeat_lookup {A} (v : A) n x : (x < n)%nat -> repeat v n !! x = Some v.
Proof.
  revert x. induction n as [| n IH]; intros x Hx; [lia |].
  destruct x; simpl; [reflexivity | apply IH; lia].
Qed.

Lemma zero_fold_keep off (l : list nat) (b : list R) x :
  b !! x = Some 0 ->
  fold_left (fun b i => <[(off + i)%nat := 0]> b) l b !! x = Some 0.
Proof.
  revert b. induction l as [| i l IH]; intros b H; simpl; [exact H |].
  apply IH. destruct (decide (off + i = x)%nat) as [<- | Hne].
  - apply list_lookup_insert_eq. apply lookup_lt_Some in H. exact H.
  - rewrite list_lookup_insert_ne by exact Hne. exact H.
Qed.

Lemma zero_fold_hit off (l : list nat) (b : list R) i :
  In i l -> (off + i < length b)%nat ->
  fold_left (fun b i => <[(off + i)%nat := 0]> b) l b !! (off + i)%nat = Some 0.
Proof.
  revert b. induction l as [| i' l IH]; intros b Hin Hlt; [destruct Hin |].
  simpl. destruct Hin as [<- | Hin].
  - apply zero_fold_keep. apply list_lookup_insert_eq. exact Hlt.
  - apply IH; [exact Hin | rewrite length_insert; exact Hlt].
Qed.

Lemma zero_range_lookup_in buf off n x :
  (off <= x < off + n)%nat -> (x < length buf)%nat ->
  zero_range buf off n !! x = Some 0.
Proof.
  intros H Hl. unfold zero_range.
  replace x with (off + (x - off))%nat by lia.
  apply zero_fold_hit; [apply in_seq; lia | lia].
Qed.

Lemma zero_range_length buf off n : length (zero_range buf off n) = length buf.
Proof.
  unfold zero_range. generalize buf. induction (seq 0 n) as [| i l IH]; intros b;
    simpl; [reflexivity | rewrite IH, length_insert; reflexivity].
Qed.

Lemma color_fold_length seg gp solid voff (l : list nat) col :
  length (fold_left (color_segment seg gp solid voff) l col) = length col.
Proof.
  revert col. induction l as [| si l IH]; intros col; simpl; [reflexivity |].
  rewrite IH. unfold color_segment, write_rgb.
  destruct gp; rewrite !length_insert; reflexivity.
Qed.

Lemma curve_fold_length points voff (l : list nat) acc :
  length (fold_left (curve_segment points voff) l acc).1.1 = length acc.1.1 /\
  length (fold_left (curve_segment points voff) l acc).1.2 = length acc.1.2.
Proof.
  revert acc. induction l as [| si l IH]; intros acc; simpl; [auto |].
  rewrite !(proj1 (IH _)), !(proj2 (IH _)).
  destruct acc as [[pos ld] d]. unfold curve_segment. simpl.
  rewrite !length_insert. auto.
Qed.

Lemma applyColor_length k s s' :
  _applyColorToCurve k s = Some s' -> length (colors s') = length (colors s).
Proof.
  unfold _applyColorToCurve.
  destruct (out_of_range s k); [intros [= <-]; reflexivity |].
  destruct (curveData s !! Z.to_nat k) as [cd |]; [| discriminate].
  destruct (negb (visible cd)); [intros [= <-]; reflexivity |].
  intros [= <-]. simpl. apply color_fold_length.
Qed.

(** The invariant: buffer sizes as allocated, at most [maxCurves] slots of
    per-slot data, a hidden slot has zero positions and distances, and a
    slot never given control points is hidden and has zero colors. *)
Definition zero_inv (s : Curves) : Prop :=
  length (positions s) = (maxCurves s * verticesPerCurve s * 3)%nat /\
  length (colors s) = (maxCurves s * verticesPerCurve s * 3)%nat /\
  length (lineDistances s) = (maxCurves s * verticesPerCurve s)%nat /\
  (length (curveData s) <= maxCurves s)%nat /\
  forall k cd, curveData s !! k = Some cd ->
    (visible cd = false ->
       region_zero (positions s) (verticesPerCurve s * 3) k /\
       region_zero (lineDistances s) (verticesPerCurve s) k) /\
    (controlPoints cd = [] ->
       visible cd = false /\ region_zero (colors s) (verticesPerCurve s * 3) k).

Lemma zero_inv_init mc seg od og : zero_inv (new_Curves mc seg od og).
Proof.
  unfold zero_inv, new_Curves, verticesPerCurve; simpl.
  rewrite !repeat_length.
  split; [lia | split; [lia | split; [lia | split; [lia |]]]].
  intros k cd Hk.
  pose proof (lookup_lt_Some _ _ _ Hk) as Hlt. rewrite repeat_length in Hlt.
  rewrite repeat_lookup in Hk by exact Hlt. injection Hk as <-. simpl.
  split; intros _; (split; [reflexivity || idtac |]);
    repeat match goal with
    | |- region_zero _ _ _ => intros x Hx; unfold in_region in Hx;
                              apply repeat_lookup; nia
    | |- _ /\ _ => split
    end.
Qed.

Lemma setCurve_data k cps c m s s' :
  setCurve k cps c m s = Some s' ->
  s' = s \/
  ((2 <= length cps)%nat /\
   curveData s' = <[Z.to_nat k := {| controlPoints := cps; cd_color := c;
                                      visible := true; metadata := m |}]> (curveData s) /\
   length (positions s') = length (positions s) /\
   length (colors s') = length (colors s) /\
   length (lineDistances s') = length (lineDistances s)).
Proof.
  unfold setCurve.
  destruct (out_of_range s k); [intros [= <-]; auto |].
  destruct (length cps <? 2)%nat eqn:El; [intros [= <-]; auto |].
  apply Nat.ltb_ge in El.
  destruct (curveData s !! Z.to_nat k); [| discriminate].
  destruct (fold_left _ _ _) as [[pos ld] dist] eqn:Ef.
  destruct (_applyColorToCurve k _) as [s3 |] eqn:E3; [| discriminate].
  pose proof (applyColor_length _ _ _ E3) as Hc.
  apply applyColor_frame in E3 as (_ & _ & _ & Hd & Hp & Hl & _).
  pose proof (curve_fold_length (getPoints cps (segmentsPerCurve s))
                (Z.to_nat k * verticesPerCurve s) (seq 0 (segmentsPerCurve s))
                (positions s, lineDistances s, 0)) as [L1 L2].
  rewrite Ef in L1, L2. simpl in *.
  intros Hs. right.
  assert (Hs' : curveData s' = curveData s3 /\ positions s' = positions s3 /\
                colors s' = colors s3 /\ lineDistances s' = lineDistances s3).
  { destruct (currentCurveCount _ <=? k)%Z; injection Hs as <-; auto. }
  destruct Hs' as (-> & -> & -> & ->).
  rewrite Hd, Hp, Hl, Hc. simpl. auto.
Qed.

Lemma setCurveColor_data k c m s s' :
  setCurveColor k c m s = Some s' ->
  s' = s \/
  (exists cd, curveData s !! Z.to_nat k = Some cd /\ visible cd = true /\
   curveData s' = <[Z.to_nat k := {| controlPoints := controlPoints cd; cd_color := c;
                     visible := visible cd;
                     metadata := match m with Some m' => m' | None => metadata cd end |}]>
                  (curveData s) /\
   length (colors s') = length (colors s) /\
   positions s' = positions s /\ lineDistances s' = lineDistances s).
Proof.
  unfold setCurveColor.
  destruct (out_of_range s k); [intros [= <-]; auto |].
  destruct (curveData s !! Z.to_nat k) as [cd |] eqn:Ecd; [| discriminate].
  destruct (visible cd) eqn:Ev; simpl; [| intros [= <-]; auto].
  intros E. right. exists cd.
  pose proof (applyColor_length _ _ _ E) as Hc.
  apply applyColor_frame in E as (_ & _ & _ & Hd & Hp & Hl & _).
  rewrite Hd, Hp, Hl, Hc. simpl. rewrite Ev. auto 10.
Qed.

Lemma region_zero_transfer (b b' : list R) width j :
  (forall x, in_region width j x -> b' !! x = b !! x) ->
  region_zero b width j -> region_zero b' width j.
Proof. intros H Z x Hx. rewrite H by exact Hx. apply Z, Hx. Qed.

Lemma zero_inv_other s s' j cd :
  frame s s' -> slot_unchanged s s' j ->
  ((visible cd = false ->
      region_zero (positions s) (verticesPerCurve s * 3) j /\
      region_zero (lineDistances s) (verticesPerCurve s) j) /\
   (controlPoints cd = [] ->
      visible cd = false /\ region_zero (colors s) (verticesPerCurve s * 3) j)) ->
  (visible cd = false ->
      region_zero (positions s') (verticesPerCurve s' * 3) j /\
      region_zero (lineDistances s') (verticesPerCurve s') j) /\
  (controlPoints cd = [] ->
      visible cd = false /\ region_zero (colors s') (verticesPerCurve s' * 3) j).
Proof.
  intros (_ & Hseg & _) U [A B].
  assert (Hv : verticesPerCurve s' = verticesPerCurve s)
    by (unfold verticesPerCurve; rewrite Hseg; reflexivity).
  rewrite Hv. split.
  - intros Hf. destruct (A Hf) as [P L]. split.
    + eapply region_zero_transfer; [| exact P]. intros x Hx. apply (U x), Hx.
    + eapply region_zero_transfer; [| exact L]. intros x Hx. apply (U x), Hx.
  - intros He. destruct (B He) as [Hf C]. split; [exact Hf |].
    eapply region_zero_transfer; [| exact C]. intros x Hx. apply (U x), Hx.
Qed.

Lemma step_zero_inv s o s' : zero_inv s -> step s o = Some s' -> zero_inv s'.
Proof.
  intros Hinv. pose proof Hinv as (Lp & Lc & Ll & Ld & Hz).
  destruct o as [k cps c m | k c m | k | n | | d g |]; simpl.
  - (* setCurve *)
    intros E. pose proof (setCurve_frame _ _ _ _ _ _ E) as F.
    pose proof (fun j => setCurve_isolation _ _ _ _ _ _ j E) as U.
    apply setCurve_data in E as [-> | (Hl2 & Hd & L1 & L2 & L3)]; [exact Hinv |].
    pose proof F as (Hm & Hseg & _).
    assert (Hv : verticesPerCurve s' = verticesPerCurve s)
      by (unfold verticesPerCurve; rewrite Hseg; reflexivity).
    unfold zero_inv. rewrite Hv, Hm, L1, L2, L3, Hd, length_insert.
    split; [exact Lp | split; [exact Lc | split; [exact Ll | split; [exact Ld |]]]].
    intros j cd Hj. apply list_lookup_insert_Some in Hj
      as [(<- & <- & _) | (Hne & Hj)].
    + simpl. split; [discriminate |]. intros ->. simpl in Hl2. lia.
    + rewrite <- Hv. apply (zero_inv_other s); [exact F | apply U; exact Hne |].
      apply Hz, Hj.
  - (* setCurveColor *)
    intros E. pose proof (setCurveColor_frame _ _ _ _ _ E) as F.
    pose proof (fun j => setCurveColor_isolation _ _ _ _ _ j E) as U.
    apply setCurveColor_data in E
      as [-> | (cd0 & Hcd0 & Hvis & Hd & L2 & Hp & Hl)]; [exact Hinv |].
    pose proof F as (Hm & Hseg & _).
    assert (Hv : verticesPerCurve s' = verticesPerCurve s)
      by (unfold verticesPerCurve; rewrite Hseg; reflexivity).
    unfold zero_inv. rewrite Hv, Hm, L2, Hp, Hl, Hd, length_insert.
    split; [exact Lp | split; [exact Lc | split; [exact Ll | split; [exact Ld |]]]].
    intros j cd Hj. apply list_lookup_insert_Some in Hj
      as [(<- & <- & _) | (Hne & Hj)].
    + simpl. rewrite Hvis. split; [discriminate |]. intros He.
      destruct (Hz _ _ Hcd0) as [_ B]. destruct (B He) as [Hf _].
      congruence.
    + rewrite <- Hp, <- Hl, <- Hv.
      apply (zero_inv_other s); [exact F | apply U; exact Hne |].
      apply Hz, Hj.
  - (* hideCurve *)
    intros E. pose proof (hideCurve_frame _ _ _ E) as F.
    pose proof (fun j => hideCurve_isolation _ _ _ j E) as U.
    revert E. unfold hideCurve.
    destruct (out_of_range s k); [intros [= <-]; exact Hinv |].
    destruct (curveData s !! Z.to_nat k) as [cd0 |] eqn:Hcd0; [| discriminate].
    intros [= <-].
    pose proof (lookup_lt_Some _ _ _ Hcd0) as Hklt.
    unfold zero_inv; simpl. rewrite !zero_range_length, length_insert.
    split; [exact Lp | split; [exact Lc | split; [exact Ll | split; [exact Ld |]]]].
    intros j cd Hj. apply list_lookup_insert_Some in Hj
      as [(<- & <- & _) | (Hne & Hj)].
    + simpl. split.
      * intros _. split; intros x Hx; unfold in_region, verticesPerCurve in *; simpl in Hx;
          apply zero_range_lookup_in; nia.
      * intros He. split; [reflexivity |].
        destruct (Hz _ _ Hcd0) as [_ B]. destruct (B He) as [_ C]. exact C.
    + exact (zero_inv_other s _ j cd F (U j Hne) (Hz _ _ Hj)).
  - intros [= <-]. exact Hinv.
  - intros [= <-]. unfold applyUpdates.
    destruct (if needsPositionUpdate s then _ else _).
    destruct (if needsColorUpdate s then _ else _).
    destruct (if _ && _ then _ else _). exact Hinv.
  - intros [= <-]. unfold setDashPattern, updateMaterial.
    destruct (Req_EM_T _ _); [destruct (Req_EM_T _ _); [exact Hinv |] |];
      simpl; destruct (meshPresent s); simpl; try exact Hinv;
      destruct (Rlt_dec _ _); exact Hinv.
  - intros [= <-]. unfold remove.
    unfold zero_inv. destruct (meshPresent s); simpl;
      (split; [exact Lp | split; [exact Lc | split; [exact Ll | split; [lia |]]]]);
      intros j cd Hj; rewrite lookup_nil in Hj; discriminate.
Qed.

Lemma run_zero_inv s ops : zero_inv s -> zero_inv (run s ops).
Proof.
  revert s. induction ops as [| o ops IH]; intros s H; simpl; [exact H |].
  destruct (step s o) eqn:E; apply IH; [eapply step_zero_inv; eauto | exact H].
Qed.

(** The call sequence of the counterexample to C3: a red curve on slot 0,
    then [hideCurve(0)]. *)
Definition set_then_hide : list op :=
  [OSetCurve 0 [vzero; V3 10 0 0] (CColor (RGB 1 0 0)) MNull; OHideCurve 0].

(** C3, as stated, fails: after [setCurve(0, ...)] with a red color and
    [hideCurve(0)], slot 0 is hidden but its colors are still red. *)
Lemma hidden_slot_colors_cex :
  isCurveVisible 0 (run small set_then_hide) = Some false /\
  colors (run small set_then_hide) !! 0%nat = Some 1 /\
  ~ region_zero (colors (run small set_then_hide))
      (verticesPerCurve (run small set_then_hide) * 3) 0.
Proof.
  assert (Hc : colors (run small set_then_hide) !! 0%nat = Some 1) by reflexivity.
  split; [reflexivity | split; [exact Hc |]].
  intros Hz. specialize (Hz 0%nat). rewrite Hc in Hz.
  assert (H : Some 1 = Some 0).
  { apply Hz. assert (Hv : verticesPerCurve (run small set_then_hide) = 2%nat)
      by reflexivity.
    unfold in_region. rewrite Hv. lia. }
  injection H as H. lra.
Qed.

(** C3 (amended): in every state reached from a constructed object, a
    slot that was never given a curve (its stored control-point list is
    still the initial empty one) has all-zero regions in all three
    buffers, and a hidden slot has all-zero [positions] and
    [lineDistances] regions (its [colors] region is not cleared). *)
Theorem unoccupied_hidden_zero (mc seg : nat) (od og : option R) (ops : list op)
    (k : nat) (cd : CurveData) :
  curveData (run (new_Curves mc seg od og) ops) !! k = Some cd ->
  (visible cd = false ->
     region_zero (positions (run (new_Curves mc seg od og) ops))
       (verticesPerCurve (run (new_Curves mc seg od og) ops) * 3) k /\
     region_zero (lineDistances (run (new_Curves mc seg od og) ops))
       (verticesPerCurve (run (new_Curves mc seg od og) ops)) k) /\
  (controlPoints cd = [] ->
     region_zero (positions (run (new_Curves mc seg od og) ops))
       (verticesPerCurve (run (new_Curves mc seg od og) ops) * 3) k /\
     region_zero (colors (run (new_Curves mc seg od og) ops))
       (verticesPerCurve (run (new_Curves mc seg od og) ops) * 3) k /\
     region_zero (lineDistances (run (new_Curves mc seg od og) ops))
       (verticesPerCurve (run (new_Curves mc seg od og) ops)) k).
Proof.
  intros Hk.
  destruct (run_zero_inv _ ops (zero_inv_init mc seg od og)) as (_ & _ & _ & _ & Hz).
  destruct (Hz k cd Hk) as [A B]. split; [exact A |].
  intros He. destruct (B He) as [Hf C]. destruct (A Hf) as [P L]. auto.
Qed.

Lemma unoccupied_hidden_zero_witness :
  region_zero (positions (run small set_then_hide))
    (verticesPerCurve (run small set_then_hide) * 3) 0.
Proof.
  destruct (unoccupied_hidden_zero 2 1 None None set_then_hide 0
           {| controlPoints := [vzero; V3 10 0 0]; cd_color := CColor (RGB 1 0 0);
              visible := false; metadata := MNull |} eq_refl) as [A _].
  apply A. reflexivity.
Defined.

(** *** Line distances *)

(** Arc length of the sampled polyline up to sample [n]. *)
Fixpoint cum_dist (points : list vec3) (n : nat) : R :=
  match n with
  | O => 0
  | S n' => cum_dist points n' + distanceTo (nth n' points vzero) (nth n points vzero)
  end.

Lemma cum_dist_step points n : cum_dist points n <= cum_dist points (S n).
Proof.
  simpl. pose proof (sqrt_pos (distanceToSquared (nth n points vzero)
                                 (nth (S n) points vzero))).
  unfold distanceTo. lra.
Qed.

Lemma curve_fold_ld points voff a n acc :
  acc.2 = cum_dist points a ->
  (voff + 2 * (a + n) <= length acc.1.2)%nat ->
  (fold_left (curve_segment points voff) (seq a n) acc).2 = cum_dist points (a + n) /\
  forall si, (a <= si < a + n)%nat ->
    (fold_left (curve_segment points voff) (seq a n) acc).1.2 !! (voff + 2 * si)%nat
      = Some (cum_dist points si) /\
    (fold_left (curve_segment points voff) (seq a n) acc).1.2 !! (voff + 2 * si + 1)%nat
      = Some (cum_dist points (S si)).
Proof.
  revert a acc. induction n as [| n IH]; intros a acc Hd Hl.
  - simpl. rewrite Nat.add_0_r. split; [exact Hd | intros; lia].
  - destruct acc as [[pos ld] d]. simpl in Hd, Hl. subst d.
    cbn [seq fold_left].
    set (acc' := curve_segment points voff (pos, ld, cum_dist points a) a).
    assert (Hacc : acc'.2 = cum_dist points (S a) /\
                   length acc'.1.2 = length ld /\
                   acc'.1.2 !! (voff + 2 * a)%nat = Some (cum_dist points a) /\
                   acc'.1.2 !! (voff + 2 * a + 1)%nat = Some (cum_dist points (S a))).
    { unfold acc', curve_segment, verticesPerSegment. simpl.
      rewrite !length_insert. split; [reflexivity | split; [reflexivity |]].
      split.
      - rewrite list_lookup_insert_ne by lia.
        replace (voff + a * 2)%nat with (voff + 2 * a)%nat by lia.
        apply list_lookup_insert_eq. lia.
      - replace (voff + a * 2 + 1)%nat with (voff + 2 * a + 1)%nat by lia.
        apply list_lookup_insert_eq. rewrite length_insert. lia. }
    destruct Hacc as (Hd' & Hl' & H0 & H1).
    destruct (IH (S a) acc') as [IHd IHs].
    + exact Hd'.
    + rewrite Hl'. lia.
    + split; [rewrite IHd; f_equal; lia |].
      intros si Hsi.
      destruct (Nat.eq_dec si a) as [-> | Hne]; [| apply IHs; lia].
      rewrite !curve_fold_ld_lookup_ne; [split; assumption | |];
        intros si' Hsi'; apply in_seq in Hsi'; lia.
Qed.

(** Slot [k]'s part of [lineDistances] starts at 0 and never decreases. *)
Definition ld_monotone (ld : list R) (V k : nat) : Prop :=
  ld !! (k * V)%nat = Some 0 /\
  forall m, (m + 1 < V)%nat ->
    exists a b, ld !! (k * V + m)%nat = Some a /\
                ld !! (k * V + m + 1)%nat = Some b /\ a <= b.

Lemma setCurve_ld_monotone k cps c m s s' :
  setCurve k cps c m s = Some s' ->
  out_of_range s k = false -> (2 <= length cps)%nat ->
  (1 <= segmentsPerCurve s)%nat ->
  length (lineDistances s) = (maxCurves s * verticesPerCurve s)%nat ->
  ld_monotone (lineDistances s') (verticesPerCurve s') (Z.to_nat k).
Proof.
  intros E Hr Hl2 Hseg1 Hlen.
  pose proof (setCurve_frame _ _ _ _ _ _ E) as (Hm & Hseg & _).
  assert (Hv : verticesPerCurve s' = verticesPerCurve s)
    by (unfold verticesPerCurve; rewrite Hseg; reflexivity).
  rewrite Hv. revert E. unfold setCurve. rewrite Hr.
  assert (Hl2' : (length cps <? 2)%nat = false) by (apply Nat.ltb_ge; lia).
  rewrite Hl2'.
  destruct (curveData s !! Z.to_nat k); [| discriminate].
  destruct (fold_left _ _ _) as [[pos ld] dist] eqn:Ef.
  destruct (_applyColorToCurve k _) as [s3 |] eqn:E3; [| discriminate].
  intros Hs.
  assert (Hs' : lineDistances s' = lineDistances s3).
  { destruct (currentCurveCount _ <=? k)%Z; injection Hs as <-; reflexivity. }
  rewrite Hs'.
  apply applyColor_frame in E3 as (_ & _ & _ & _ & _ & -> & _). simpl.
  unfold out_of_range in Hr. apply orb_false_iff in Hr as [Hk0 Hk].
  apply Z.leb_gt in Hk. apply Z.ltb_ge in Hk0.
  assert (Hkn : (Z.to_nat k < maxCurves s)%nat) by lia.
  set (points := getPoints cps (segmentsPerCurve s)) in *.
  set (V := verticesPerCurve s) in *.
  set (seg := segmentsPerCurve s) in *.
  assert (HV : V = (seg * 2)%nat) by reflexivity.
  destruct (curve_fold_ld points (Z.to_nat k * V) 0 seg
              (positions s, lineDistances s, 0)) as [_ Hw].
  - reflexivity.
  - simpl. rewrite Hlen. rewrite HV. clear -Hkn. nia.
  - rewrite Ef in Hw. simpl in Hw. split.
    + destruct (Hw 0%nat ltac:(lia)) as [A _]. rewrite Nat.add_0_r in A. exact A.
    + intros mm Hmm. destruct (Nat.Even_or_Odd mm) as [[si ->] | [si ->]].
      * destruct (Hw si ltac:(lia)) as [A B].
        exists (cum_dist points si), (cum_dist points (S si)).
        split; [exact A | split; [exact B | apply cum_dist_step]].
      * destruct (Hw si ltac:(lia)) as [_ B].
        destruct (Hw (S si) ltac:(lia)) as [A _].
        exists (cum_dist points (S si)), (cum_dist points (S si)).
        replace (Z.to_nat k * V + (2 * si + 1) + 1)%nat
          with (Z.to_nat k * V + 2 * S si)%nat by lia.
        replace (Z.to_nat k * V + (2 * si + 1))%nat
          with (Z.to_nat k * V + 2 * si + 1)%nat by lia.
        split; [exact B | split; [exact A | apply Rle_refl]].
Qed.

Lemma ld_monotone_transfer s s' j :
  (1 <= segmentsPerCurve s)%nat ->
  frame s s' -> slot_unchanged s s' j ->
  ld_monotone (lineDistances s) (verticesPerCurve s) j ->
  ld_monotone (lineDistances s') (verticesPerCurve s') j.
Proof.
  intros Hs1 (_ & Hseg & _) U [H0 H1].
  assert (Hv : verticesPerCurve s' = verticesPerCurve s)
    by (unfold verticesPerCurve; rewrite Hseg; reflexivity).
  rewrite Hv.
  assert (Hpos : (1 <= verticesPerCurve s)%nat)
    by (unfold verticesPerCurve, verticesPerSegment; lia).
  split.
  - rewrite (proj2 (U _)); [exact H0 | unfold in_region; nia].
  - intros mm Hmm. destruct (H1 mm Hmm) as (a & b & A & B & C).
    exists a, b. rewrite !(proj2 (U _)); [auto | unfold in_region; nia..].
Qed.

Definition mono_inv (s : Curves) : Prop :=
  (1 <= segmentsPerCurve s)%nat /\
  forall k cd, curveData s !! k = Some cd -> visible cd = true ->
    ld_monotone (lineDistances s) (verticesPerCurve s) k.

Lemma step_mono_inv s o s' :
  zero_inv s -> mono_inv s -> step s o = Some s' -> mono_inv s'.
Proof.
  intros (Lp & Lc & Ll & Ld & _) [Hseg1 Hm].
  destruct o as [k cps c m | k c m | k | n | | d g |]; simpl.
  - intros E. pose proof (setCurve_frame _ _ _ _ _ _ E) as F.
    pose proof (fun j => setCurve_isolation _ _ _ _ _ _ j E) as U.
    pose proof F as (_ & Hseg & _).
    split; [rewrite Hseg; exact Hseg1 |].
    destruct (out_of_range s k) eqn:Hr.
    { revert E. unfold setCurve. rewrite Hr. intros [= <-]. exact Hm. }
    pose proof E as E'.
    apply setCurve_data in E as [-> | (Hl2 & Hd & _)]; [exact Hm |].
    intros j cd Hj. rewrite Hd in Hj.
    apply list_lookup_insert_Some in Hj as [(<- & <- & _) | (Hne & Hj)].
    + intros _. eapply setCurve_ld_monotone; eauto.
    + intros Hvis. apply (ld_monotone_transfer s); [exact Hseg1 | exact F | apply U; exact Hne |].
      apply (Hm j cd Hj Hvis).
  - intros E. pose proof (setCurveColor_frame _ _ _ _ _ E) as F.
    pose proof (fun j => setCurveColor_isolation _ _ _ _ _ j E) as U.
    pose proof F as (_ & Hseg & _).
    split; [rewrite Hseg; exact Hseg1 |].
    apply setCurveColor_data in E
      as [-> | (cd0 & Hcd0 & Hvis & Hd & _ & Hp & Hl)]; [exact Hm |].
    intros j cd Hj. rewrite Hd in Hj.
    apply list_lookup_insert_Some in Hj as [(<- & <- & _) | (Hne & Hj)].
    + intros _. rewrite Hl.
      assert (Hv : verticesPerCurve s' = verticesPerCurve s)
        by (unfold verticesPerCurve; rewrite Hseg; reflexivity).
      rewrite Hv. apply (Hm _ cd0 Hcd0 Hvis).
    + intros Hv. apply (ld_monotone_transfer s); [exact Hseg1 | exact F | apply U; exact Hne |].
      apply (Hm j cd Hj Hv).
  - intros E. pose proof (hideCurve_frame _ _ _ E) as F.
    pose proof (fun j => hideCurve_isolation _ _ _ j E) as U.
    pose proof F as (_ & Hseg & _).
    split; [rewrite Hseg; exact Hseg1 |].
    revert E. unfold hideCurve.
    destruct (out_of_range s k); [intros [= <-]; exact Hm |].
    destruct (curveData s !! Z.to_nat k) as [cd0 |] eqn:Hcd0; [| discriminate].
    intros E. injection E as E. rewrite <- E in U, F |- *.
    intros j cd Hj. simpl in Hj.
    apply list_lookup_insert_Some in Hj as [(<- & <- & _) | (Hne & Hj)].
    + simpl. discriminate.
    + intros Hv. apply (ld_monotone_transfer s); [exact Hseg1 | exact F | apply U; exact Hne |].
      apply (Hm j cd Hj Hv).
  - intros [= <-]. split; [exact Hseg1 | exact Hm].
  - intros [= <-]. unfold applyUpdates.
    destruct (if needsPositionUpdate s then _ else _).
    destruct (if needsColorUpdate s then _ else _).
    destruct (if _ && _ then _ else _). split; [exact Hseg1 | exact Hm].
  - intros [= <-]. unfold setDashPattern, updateMaterial.
    destruct (Req_EM_T _ _); [destruct (Req_EM_T _ _) |]; simpl;
      try destruct (meshPresent s); simpl; try destruct (Rlt_dec _ _);
      split; first [exact Hseg1 | exact Hm].
  - intros [= <-]. unfold remove.
    destruct (meshPresent s); simpl; (split; [exact Hseg1 |]);
      intros j cd Hj; simpl in Hj; rewrite lookup_nil in Hj; discriminate.
Qed.

Lemma mono_inv_init mc seg od og : mono_inv (new_Curves mc seg od og).
Proof.
  split.
  - simpl. destruct seg; lia.
  - intros k cd Hk. simpl in Hk.
    pose proof (lookup_lt_Some _ _ _ Hk) as Hlt. rewrite repeat_length in Hlt.
    rewrite repeat_lookup in Hk by exact Hlt. injection Hk as <-. discriminate.
Qed.

Lemma run_mono_inv s ops : zero_inv s -> mono_inv s -> mono_inv (run s ops).
Proof.
  revert s. induction ops as [| o ops IH]; intros s Hz H; simpl; [exact H |].
  destruct (step s o) eqn:E.
  - apply IH; [eapply step_zero_inv; eauto | eapply step_mono_inv; eauto].
  - apply IH; assumption.
Qed.

(** C7: in every state reached from a constructed object, every visible
    slot's part of [lineDistances] starts at 0 at the slot's first vertex
    and is non-decreasing along the vertex order. *)
Theorem visible_lineDistances_monotone (mc seg : nat) (od og : option R)
    (ops : list op) (k : nat) (cd : CurveData) :
  curveData (run (new_Curves mc seg od og) ops) !! k = Some cd ->
  visible cd = true ->
  ld_monotone (lineDistances (run (new_Curves mc seg od og) ops))
    (verticesPerCurve (run (new_Curves mc seg od og) ops)) k.
Proof.
  intros Hk Hv.
  destruct (run_mono_inv _ ops (zero_inv_init mc seg od og) (mono_inv_init mc seg od og))
    as [_ Hm].
  exact (Hm k cd Hk Hv).
Qed.

(** A curve through (0,0,0) and (10,0,0) on slot 0 of [small]. *)
Definition set_red : list op :=
  [OSetCurve 0 [vzero; V3 10 0 0] (CColor (RGB 1 0 0)) MNull].

Lemma visible_lineDistances_monotone_witness :
  ld_monotone (lineDistances (run small set_red))
    (verticesPerCurve (run small set_red)) 0.
Proof.
  apply (visible_lineDistances_monotone 2 1 None None set_red 0
           {| controlPoints := [vzero; V3 10 0 0]; cd_color := CColor (RGB 1 0 0);
              visible := true; metadata := MNull |}); reflexivity.
Defined.

(** *** Gradient colors *)

(** The three components of [c] stored at [buf[i..i+2]]. *)
Definition rgb_at (buf : list R) (i : nat) (c : color) : Prop :=
  buf !! i = Some (cr c) /\ buf !! (i + 1)%nat = Some (cg c) /\
  buf !! (i + 2)%nat = Some (cb c).

Lemma write_rgb_at buf bi c :
  (bi + 2 < length buf)%nat -> rgb_at (write_rgb buf bi c) bi c.
Proof.
  intros H. unfold rgb_at, write_rgb.
  split; [| split].
  - rewrite !list_lookup_insert_ne by lia. apply list_lookup_insert_eq. lia.
  - rewrite list_lookup_insert_ne by lia. apply list_lookup_insert_eq.
    rewrite length_insert. lia.
  - apply list_lookup_insert_eq. rewrite !length_insert. lia.
Qed.

Lemma write_rgb_length buf bi c : length (write_rgb buf bi c) = length buf.
Proof. unfold write_rgb. rewrite !length_insert. reflexivity. Qed.

Lemma rgb_at_keep (buf buf' : list R) i c :
  (forall x, (i <= x < i + 3)%nat -> buf' !! x = buf !! x) ->
  rgb_at buf i c -> rgb_at buf' i c.
Proof.
  intros H (A & B & C). unfold rgb_at.
  rewrite !H by lia. auto.
Qed.

(** The colors the loop of [_applyColorToCurve] gives the start and the
    end vertex of segment [si]. *)
Definition seg_start_color (seg : nat) (gp : option GradParams) (solid : color)
    (si : nat) : color :=
  match gp with
  | Some params => _getColorForProgress params (INR si / INR seg)
  | None => solid
  end.

Definition seg_end_color (seg : nat) (gp : option GradParams) (solid : color)
    (si : nat) : color :=
  match gp with
  | Some params => _getColorForProgress params (INR (S si) / INR seg)
  | None => solid
  end.

Lemma color_fold_writes seg gp solid voff a n col :
  ((voff + (a + n) * 2) * 3 <= length col)%nat ->
  forall si, (a <= si < a + n)%nat ->
    rgb_at (fold_left (color_segment seg gp solid voff) (seq a n) col)
      ((voff + si * 2) * 3) (seg_start_color seg gp solid si) /\
    rgb_at (fold_left (color_segment seg gp solid voff) (seq a n) col)
      ((voff + si * 2) * 3 + 3) (seg_end_color seg gp solid si).
Proof.
  revert a col. induction n as [| n IH]; intros a col Hl si Hsi; [lia |].
  cbn [seq fold_left].
  set (col' := color_segment seg gp solid voff col a).
  assert (Hl' : length col' = length col).
  { unfold col', color_segment. destruct gp; rewrite !write_rgb_length; reflexivity. }
  destruct (Nat.eq_dec si a) as [-> | Hne].
  - assert (Hw : rgb_at col' ((voff + a * 2) * 3) (seg_start_color seg gp solid a) /\
                 rgb_at col' ((voff + a * 2) * 3 + 3) (seg_end_color seg gp solid a)).
    { unfold col', color_segment, seg_start_color, seg_end_color, verticesPerSegment.
      cbv zeta.
      destruct gp; split;
        [ refine (rgb_at_keep (write_rgb col _ _) _ _ _ _ _); [| apply write_rgb_at; lia];
          intros x Hx; apply write_rgb_lookup_ne; lia
        | apply write_rgb_at; rewrite write_rgb_length; lia
        | refine (rgb_at_keep (write_rgb col _ _) _ _ _ _ _); [| apply write_rgb_at; lia];
          intros x Hx; apply write_rgb_lookup_ne; lia
        | apply write_rgb_at; rewrite write_rgb_length; lia ]. }
    destruct Hw as [W1 W2].
    split; (eapply rgb_at_keep; [| eassumption]);
      intros x Hx; apply color_fold_lookup_ne;
      intros si' Hsi'; apply in_seq in Hsi'; lia.
  - apply IH; [rewrite Hl'; lia | lia].
Qed.

Lemma Rmin_le_l a b : a <= b -> Rmin a b = a.
Proof. intros H. unfold Rmin. destruct (Rle_dec a b); lra. Qed.

Lemma Rmin_le_r a b : b <= a -> Rmin a b = b.
Proof. intros H. unfold Rmin. destruct (Rle_dec a b); lra. Qed.

Lemma Rmax_le_l a b : b <= a -> Rmax a b = a.
Proof. intros H. unfold Rmax. destruct (Rle_dec a b); lra. Qed.

Lemma Rmax_le_r a b : a <= b -> Rmax a b = b.
Proof. intros H. unfold Rmax. destruct (Rle_dec a b); lra. Qed.

Lemma clamp_in value : 0 <= value <= 1 -> clamp value 0 1 = value.
Proof.
  intros H. unfold clamp. rewrite Rmin_le_r by lra. apply Rmax_le_r. lra.
Qed.

Lemma js_trunc_half : js_trunc (180 / 360) = 0%Z.
Proof.
  assert (E : 180 / 360 = 1 / 2) by (field; lra).
  unfold js_trunc. rewrite E.
  destruct (Rle_dec 0 (1 / 2)) as [_ | N]; [| lra].
  unfold Int_part.
  rewrite <- (tech_up (1 / 2) 1%Z); [reflexivity | |]; simpl; lra.
Qed.

Lemma js_mod_180_360 : js_mod 180 360 = 180.
Proof. unfold js_mod. rewrite js_trunc_half. simpl. lra. Qed.

(** The parameters [_computeGradientParams] gives for [(lat, lng) = (0, 0)]. *)
Definition origin_gradient : GradParams :=
  {| hue := js_mod (0 + 180) 360 / 360;
     saturation := clamp (0.6 + 0.3 * (1 - Rmin (Rabs 0 / 90) 1)) 0 1;
     lightnessStart := 0.35; lightnessEnd := 0.75 |}.

Lemma origin_gradient_values :
  hue origin_gradient = 0.5 /\ saturation origin_gradient = 0.9 /\
  progressLightness origin_gradient 0 = 0.35 /\
  progressLightness origin_gradient 1 = 0.75.
Proof.
  unfold origin_gradient, progressLightness; simpl.
  split; [| split; [| split]].
  - replace (0 + 180) with 180 by lra. rewrite js_mod_180_360. lra.
  - rewrite Rabs_R0. replace (0 / 90) with 0 by (unfold Rdiv; ring).
    rewrite Rmin_le_l by lra. rewrite clamp_in by lra. lra.
  - rewrite (clamp_in 0) by lra. rewrite clamp_in by lra. lra.
  - rewrite (clamp_in 1) by lra. rewrite clamp_in by lra. lra.
Qed.

Lemma origin_gradient_params m :
  _computeGradientParams (CGradient (Some 0) (Some 0)) m = Some origin_gradient.
Proof. reflexivity. Qed.

(** C10: for a gradient keyed at latitude 0 and longitude 0,
    [_computeGradientParams] gives hue [((0 + 180) % 360) / 360 = 0.5]
    (saturation 0.9) and the lightness ramp 0.35 at progress 0 and 0.75 at
    progress 1; and [_applyColorToCurve] stores at the curve's first vertex
    the color [setHSL(0.5, 0.9, 0.35)] and at its last vertex the color
    [setHSL(0.5, 0.9, 0.75)]. *)
Theorem gradient_origin_endpoints (k : Z) (s s' : Curves) (cd : CurveData) :
  (0 <= k < Z.of_nat (maxCurves s))%Z ->
  (1 <= segmentsPerCurve s)%nat ->
  length (colors s) = (maxCurves s * verticesPerCurve s * 3)%nat ->
  curveData s !! Z.to_nat k = Some cd ->
  visible cd = true ->
  cd_color cd = CGradient (Some 0) (Some 0) ->
  _applyColorToCurve k s = Some s' ->
  (exists p, _computeGradientParams (cd_color cd) (metadata cd) = Some p /\
     hue p = 0.5 /\ saturation p = 0.9 /\
     progressLightness p 0 = 0.35 /\ progressLightness p 1 = 0.75) /\
  rgb_at (colors s') (Z.to_nat k * verticesPerCurve s * 3)
    (setHSL 0.5 0.9 0.35) /\
  rgb_at (colors s')
    ((Z.to_nat k * verticesPerCurve s + verticesPerCurve s - 1) * 3)
    (setHSL 0.5 0.9 0.75).
Proof.
  intros Hk Hseg Hlen Hcd Hvis Hcol Happ.
  destruct origin_gradient_values as (Hh & Hs & H0 & H1).
  split.
  { exists origin_gradient. rewrite Hcol. auto. }
  unfold _applyColorToCurve, out_of_range in Happ.
  replace ((k <? 0)%Z || (Z.of_nat (maxCurves s) <=? k)%Z) with false in Happ
    by (symmetry; apply orb_false_iff; split; [apply Z.ltb_ge | apply Z.leb_gt]; lia).
  rewrite Hcd, Hvis, Hcol, origin_gradient_params in Happ. simpl in Happ.
  injection Happ as <-. simpl.
  set (seg := segmentsPerCurve s) in *.
  assert (Hv : verticesPerCurve s = (seg * 2)%nat) by reflexivity.
  rewrite Hv. rewrite Hv in Hlen.
  assert (Hkn : (Z.to_nat k < maxCurves s)%nat) by lia.
  assert (Hfold := color_fold_writes seg (Some origin_gradient)
                     (_resolveSolidColor (CGradient (Some 0) (Some 0)))
                     (Z.to_nat k * (seg * 2)) 0 seg (colors s)).
  assert (Hb : ((Z.to_nat k * (seg * 2) + (0 + seg) * 2) * 3 <= length (colors s))%nat)
    by (rewrite Hlen; nia).
  destruct (Hfold Hb 0%nat ltac:(lia)) as [F0 _].
  destruct (Hfold Hb (seg - 1)%nat ltac:(lia)) as [_ F1].
  unfold seg_start_color, seg_end_color, _getColorForProgress in F0, F1.
  rewrite Hh, Hs in F0, F1.
  split.
  - replace (Z.to_nat k * (seg * 2) * 3)%nat
      with ((Z.to_nat k * (seg * 2) + 0 * 2) * 3)%nat by lia.
    replace (INR 0 / INR seg) with 0 in F0 by (simpl; unfold Rdiv; ring).
    rewrite H0 in F0. exact F0.
  - replace ((Z.to_nat k * (seg * 2) + seg * 2 - 1) * 3)%nat
      with ((Z.to_nat k * (seg * 2) + (seg - 1) * 2) * 3 + 3)%nat by lia.
    replace (S (seg - 1)) with seg in F1 by lia.
    replace (INR seg / INR seg) with 1 in F1
      by (field; apply not_0_INR; lia).
    rewrite H1 in F1. exact F1.
Qed.

Lemma applyColor_found k s cd :
  curveData s !! Z.to_nat k = Some cd -> _applyColorToCurve k s <> None.
Proof.
  intros H. unfold _applyColorToCurve.
  destruct (out_of_range s k); [discriminate |].
  rewrite H. destruct (negb (visible cd)); discriminate.
Qed.

Definition set_grad : list op :=
  [OSetCurve 0 [vzero; V3 10 0 0] (CGradient (Some 0) (Some 0)) MNull].

Definition recolored (s : Curves) : Curves :=
  match _applyColorToCurve 0 s with Some s' => s' | None => s end.

Definition grad_cd : CurveData :=
  {| controlPoints := [vzero; V3 10 0 0];
     cd_color := CGradient (Some 0) (Some 0);
     visible := true; metadata := MNull |}.

Lemma recolored_spec s :
  curveData s !! 0%nat = Some grad_cd ->
  _applyColorToCurve 0 s = Some (recolored s).
Proof.
  intros H. unfold recolored.
  destruct (_applyColorToCurve 0 s) eqn:E; [reflexivity |].
  exfalso. exact (applyColor_found 0 s grad_cd H E).
Qed.

Lemma gradient_origin_endpoints_witness :
  rgb_at (colors (recolored (run small set_grad))) 0 (setHSL 0.5 0.9 0.35) /\
  rgb_at (colors (recolored (run small set_grad))) 3 (setHSL 0.5 0.9 0.75).
Proof.
  destruct (gradient_origin_endpoints 0 (run small set_grad)
              (recolored (run small set_grad)) grad_cd)
    as (_ & A & B); [split; [lia | reflexivity] | reflexivity | reflexivity
                     | reflexivity | reflexivity | reflexivity
                     | apply recolored_spec; reflexivity |].
  split; [exact A | exact B].
Defined.

(** *** Arc-length parametrisation of [CatmullRomCurve3] *)

Lemma Int_part_IZR n : Int_part (IZR n) = n.
Proof.
  unfold Int_part.
  rewrite <- (tech_up (IZR n) (n + 1)); [lia | |]; rewrite plus_IZR; simpl; lra.
Qed.

Lemma calc_init_0 x0 x1 x2 x3 dt0 dt1 dt2 :
  calc (initNonuniformCatmullRom x0 x1 x2 x3 dt0 dt1 dt2) 0 = x1.
Proof. unfold calc, initNonuniformCatmullRom, cubic_init. simpl. ring. Qed.

Lemma calc_init_1 x0 x1 x2 x3 dt0 dt1 dt2 :
  calc (initNonuniformCatmullRom x0 x1 x2 x3 dt0 dt1 dt2) 1 = x2.
Proof. unfold calc, initNonuniformCatmullRom, cubic_init. simpl. ring. Qed.

Lemma vec3_eta v : V3 (vx v) (vy v) (vz v) = v.
Proof. destruct v. reflexivity. Qed.

(** [getPoint(0)] is the first control point. *)
Lemma getPoint_0 points :
  (2 <= length points)%nat -> getPoint points 0 = nth 0 points vzero.
Proof.
  intros Hl. unfold getPoint.
  rewrite Rmult_0_r.
  rewrite (Int_part_IZR 0).
  replace (0 - IZR 0) with 0 by (simpl; ring).
  destruct (Req_EM_T 0 0) as [_ | N]; [| lra].
  destruct (Z.eq_dec 0%Z (Z.of_nat (length points) - 1)%Z) as [E | _]; [lia |].
  cbv zeta. rewrite !calc_init_0. apply vec3_eta.
Qed.

(** [getPoint(1)] is the last control point. *)
Lemma getPoint_1 points :
  (2 <= length points)%nat ->
  getPoint points 1 = nth (length points - 1) points vzero.
Proof.
  intros Hl. unfold getPoint.
  rewrite Rmult_1_r, Int_part_IZR, Rminus_diag.
  destruct (Req_EM_T 0 0) as [_ | N]; [| lra].
  destruct (Z.eq_dec (Z.of_nat (length points) - 1)%Z (Z.of_nat (length points) - 1)%Z)
    as [_ | N]; [| lia].
  cbv zeta. rewrite !calc_init_1.
  unfold pt. replace (Z.to_nat (Z.of_nat (length points) - 2 + 1)%Z)
    with (length points - 1)%nat by lia.
  apply vec3_eta.
Qed.

Lemma distanceTo_nonneg a v : 0 <= distanceTo a v.
Proof. apply sqrt_pos. Qed.

Lemma distanceTo_eq_0 a v : distanceTo a v = 0 -> a = v.
Proof.
  unfold distanceTo, distanceToSquared. destruct a as [ax ay az], v as [bx by' bz].
  simpl. cbv zeta. intros H.
  pose proof (Rle_0_sqr (ax - bx)). pose proof (Rle_0_sqr (ay - by')).
  pose proof (Rle_0_sqr (az - bz)). unfold Rsqr in *.
  apply sqrt_eq_0 in H; [| lra].
  assert (Ex : (ax - bx) * (ax - bx) = 0) by lra.
  assert (Ey : (ay - by') * (ay - by') = 0) by lra.
  assert (Ez : (az - bz) * (az - bz) = 0) by lra.
  apply Rmult_integral in Ex, Ey, Ez.
  f_equal; lra.
Qed.

(** The sample points [getPoint(m / d)] of [getLengths] and their
    cumulative chord lengths. *)
Definition sample (points : list vec3) (d m : nat) : vec3 :=
  getPoint points (INR m / INR d).

Fixpoint arc (points : list vec3) (d j : nat) : R :=
  match j with
  | O => 0
  | S j' => arc points d j' + distanceTo (sample points d (S j')) (sample points d j')
  end.

Lemma lengths_fold points d j n :
  fold_left (lengths_step points d) (seq (S j) n)
    (map (arc points d) (seq 0 (S j)), sample points d j, arc points d j) =
  (map (arc points d) (seq 0 (S (j + n))), sample points d (j + n),
   arc points d (j + n)).
Proof.
  revert j. induction n as [| n IH]; intros j.
  - rewrite Nat.add_0_r. reflexivity.
  - change (seq (S j) (S n)) with (S j :: seq (S (S j)) n). cbn [fold_left].
    replace (lengths_step points d
               (map (arc points d) (seq 0 (S j)), sample points d j, arc points d j) (S j))
      with (map (arc points d) (seq 0 (S (S j))), sample points d (S j),
            arc points d (S j)).
    2:{ unfold lengths_step. rewrite (seq_S (S j) 0), map_app. reflexivity. }
    rewrite IH. rewrite Nat.add_succ_r. reflexivity.
Qed.

Lemma getLengths_arc points d :
  getLengths points d = map (arc points d) (seq 0 (S d)).
Proof.
  unfold getLengths.
  replace ([0], getPoint points 0, 0)
    with (map (arc points d) (seq 0 1), sample points d 0, arc points d 0).
  2:{ unfold sample. simpl. f_equal. f_equal. f_equal. unfold Rdiv. ring. }
  rewrite (lengths_fold points d 0 d). reflexivity.
Qed.

Lemma arc_nonneg points d j : 0 <= arc points d j.
Proof.
  induction j as [| j IH]; simpl; [lra |].
  pose proof (distanceTo_nonneg (sample points d (S j)) (sample points d j)). lra.
Qed.

Lemma arc_mono points d i j : (i <= j)%nat -> arc points d i <= arc points d j.
Proof.
  induction 1 as [| j _ IH]; [lra |]. simpl.
  pose proof (distanceTo_nonneg (sample points d (S j)) (sample points d j)). lra.
Qed.

Lemma arc_zero points d j : arc points d j = 0 -> sample points d j = sample points d 0.
Proof.
  induction j as [| j IH]; intros H; [reflexivity |].
  simpl in H.
  pose proof (arc_nonneg points d j).
  pose proof (distanceTo_nonneg (sample points d (S j)) (sample points d j)).
  rewrite (distanceTo_eq_0 (sample points d (S j)) (sample points d j)) by lra.
  apply IH. lra.
Qed.

Lemma arc_flat points d i j :
  (i <= j)%nat -> arc points d i = arc points d j -> sample points d i = sample points d j.
Proof.
  induction 1 as [| j Hij IH]; intros H; [reflexivity |].
  simpl in H.
  pose proof (arc_mono points d i j Hij).
  pose proof (distanceTo_nonneg (sample points d (S j)) (sample points d j)).
  rewrite (distanceTo_eq_0 (sample points d (S j)) (sample points d j)) by lra.
  apply IH. lra.
Qed.

Lemma nth_arc points d j :
  (j <= d)%nat -> nth j (map (arc points d) (seq 0 (S d))) 0 = arc points d j.
Proof.
  intros Hj.
  rewrite (nth_indep _ 0 (arc points d 0)) by (rewrite length_map, length_seq; lia).
  rewrite map_nth, seq_nth by lia. reflexivity.
Qed.

Section Search.

Variable arcLengths : list R.
Variable d : nat.
Hypothesis arcLengths_mono : forall i j : nat,
  (i <= j <= d)%nat -> nth i arcLengths 0 <= nth j arcLengths 0.
Hypothesis arcLengths_0 : nth 0 arcLengths 0 = 0.

Lemma mid_bounds (low high : Z) :
  (low <= high)%Z -> (low <= low + (high - low) / 2 <= high)%Z.
Proof.
  intros H. pose proof (Z.div_mod (high - low) 2 ltac:(lia)).
  pose proof (Z.mod_pos_bound (high - low) 2 ltac:(lia)). lia.
Qed.

(** Searching for 0 ends on an index whose arc length is 0. *)
Lemma utot_search_zero fuel high :
  (0 <= high <= Z.of_nat d)%Z -> (Z.to_nat high < fuel)%nat ->
  (0 <= utot_search fuel arcLengths 0 0 high <= Z.of_nat d)%Z /\
  nth (Z.to_nat (utot_search fuel arcLengths 0 0 high)) arcLengths 0 = 0.
Proof.
  revert high. induction fuel as [| fuel IH]; intros high Hh Hf; [lia |].
  cbn [utot_search].
  replace (0 <=? high)%Z with true by (symmetry; apply Z.leb_le; lia).
  pose proof (mid_bounds 0 high ltac:(lia)) as Hm.
  set (i := (0 + (high - 0) / 2)%Z) in *.
  assert (Hpos : 0 <= nth (Z.to_nat i) arcLengths 0).
  { pose proof (arcLengths_mono 0 (Z.to_nat i) ltac:(lia)). lra. }
  destruct (Rlt_dec (nth (Z.to_nat i) arcLengths 0 - 0) 0) as [N | N]; [lra |].
  destruct (Rlt_dec 0 (nth (Z.to_nat i) arcLengths 0 - 0)) as [P | Z0].
  - assert (Hi : i <> 0%Z).
    { intros E. rewrite E in P. change (Z.to_nat 0) with 0%nat in P. lra. }
    apply IH; lia.
  - split; [lia | lra].
Qed.

(** Searching for the last arc length ends on an index that has it. *)
Lemma utot_search_last fuel low :
  (0 <= low <= Z.of_nat d)%Z -> (Z.to_nat (Z.of_nat d - low) < fuel)%nat ->
  (0 <= utot_search fuel arcLengths (nth d arcLengths 0%R) low (Z.of_nat d)
     <= Z.of_nat d)%Z /\
  nth (Z.to_nat (utot_search fuel arcLengths (nth d arcLengths 0) low (Z.of_nat d)))
    arcLengths 0 = nth d arcLengths 0.
Proof.
  revert low. induction fuel as [| fuel IH]; intros low Hl Hf; [lia |].
  cbn [utot_search].
  replace (low <=? Z.of_nat d)%Z with true by (symmetry; apply Z.leb_le; lia).
  pose proof (mid_bounds low (Z.of_nat d) ltac:(lia)) as Hm.
  set (i := (low + (Z.of_nat d - low) / 2)%Z) in *.
  assert (Hle : nth (Z.to_nat i) arcLengths 0 <= nth d arcLengths 0)
    by (apply arcLengths_mono; lia).
  destruct (Rlt_dec (nth (Z.to_nat i) arcLengths 0 - nth d arcLengths 0) 0) as [N | N].
  - assert (Hi : i <> Z.of_nat d).
    { intros E. rewrite E, Nat2Z.id in N. lra. }
    apply IH; lia.
  - destruct (Rlt_dec 0 (nth (Z.to_nat i) arcLengths 0 - nth d arcLengths 0))
      as [P | P]; [lra |].
    split; [lia | lra].
Qed.

End Search.

Lemma arcLengths_props points d :
  (forall i j : nat, (i <= j <= d)%nat ->
     nth i (getLengths points d) 0 <= nth j (getLengths points d) 0) /\
  nth 0 (getLengths points d) 0 = 0.
Proof.
  rewrite getLengths_arc. split.
  - intros i j H. rewrite !nth_arc by lia. apply arc_mono. lia.
  - rewrite nth_arc by lia. reflexivity.
Qed.

Lemma sample_IZR points d (r : Z) :
  (0 <= r)%Z -> getPoint points (IZR r / INR d) = sample points d (Z.to_nat r).
Proof.
  intros H. unfold sample. rewrite (INR_IZR_INZ (Z.to_nat r)), Z2Nat.id by exact H.
  reflexivity.
Qed.

(** [getPointAt(0)] on a curve is its first control point. *)
Lemma getPointAt_0 points :
  (2 <= length points)%nat -> Three.getPointAt points 0 = nth 0 points vzero.
Proof.
  intros Hl. unfold Three.getPointAt, getUtoTmapping.
  set (d := arcLengthDivisions).
  destruct (arcLengths_props points d) as [Hmono H0].
  assert (Hlen : length (getLengths points d) = S d)
    by (rewrite getLengths_arc, length_map, length_seq; reflexivity).
  rewrite Hlen, Rmult_0_l. replace (S d - 1)%nat with d by lia.
  replace (Z.of_nat (S d) - 1)%Z with (Z.of_nat d) by lia.
  destruct (utot_search_zero (getLengths points d) d Hmono H0 (S d) (Z.of_nat d)
              ltac:(lia) ltac:(lia)) as [Hr Hz].
  set (r := utot_search (S d) (getLengths points d) 0 0 (Z.of_nat d)) in *.
  destruct (Req_EM_T (nth (Z.to_nat r) (getLengths points d) 0) 0) as [_ | N];
    [| contradiction].
  rewrite sample_IZR by lia.
  rewrite getLengths_arc, nth_arc in Hz by lia.
  rewrite (arc_zero points d _ Hz). unfold sample.
  replace (INR 0 / INR d) with 0 by (simpl; unfold Rdiv; ring).
  apply getPoint_0. exact Hl.
Qed.

(** [getPointAt(1)] on a curve is its last control point. *)
Lemma getPointAt_1 points :
  (2 <= length points)%nat ->
  Three.getPointAt points 1 = nth (length points - 1) points vzero.
Proof.
  intros Hl. unfold Three.getPointAt, getUtoTmapping.
  set (d := arcLengthDivisions).
  destruct (arcLengths_props points d) as [Hmono H0].
  assert (Hlen : length (getLengths points d) = S d)
    by (rewrite getLengths_arc, length_map, length_seq; reflexivity).
  rewrite Hlen, Rmult_1_l. replace (S d - 1)%nat with d by lia.
  replace (Z.of_nat (S d) - 1)%Z with (Z.of_nat d) by lia.
  destruct (utot_search_last (getLengths points d) d Hmono (S d) 0
              ltac:(lia) ltac:(lia)) as [Hr Hz].
  set (r := utot_search (S d) (getLengths points d) (nth d (getLengths points d) 0)
              0 (Z.of_nat d)) in *.
  destruct (Req_EM_T (nth (Z.to_nat r) (getLengths points d) 0)
              (nth d (getLengths points d) 0)) as [_ | N]; [| contradiction].
  rewrite sample_IZR by lia.
  rewrite getLengths_arc, !nth_arc in Hz by lia.
  rewrite (arc_flat points d (Z.to_nat r) d ltac:(lia) Hz). unfold sample.
  replace (INR d / INR d) with 1 by (field; unfold d, arcLengthDivisions; simpl; lra).
  apply getPoint_1. exact Hl.
Qed.

(** A valid [setCurve] on a live slot completes and stores the curve. *)
Lemma setCurve_stores k cps c m s cd0 :
  (0 <= k < Z.of_nat (maxCurves s))%Z -> (2 <= length cps)%nat ->
  curveData s !! Z.to_nat k = Some cd0 ->
  exists s', setCurve k cps c m s = Some s' /\
    maxCurves s' = maxCurves s /\
    curveData s' !! Z.to_nat k =
      Some {| controlPoints := cps; cd_color := c; visible := true; metadata := m |}.
Proof.
  intros Hk Hl Hcd. unfold setCurve.
  replace (out_of_range s k) with false
    by (symmetry; unfold out_of_range; apply orb_false_iff;
        split; [apply Z.ltb_ge | apply Z.leb_gt]; lia).
  replace (length cps <? 2)%nat with false by (symmetry; apply Nat.ltb_ge; lia).
  rewrite Hcd.
  set (cd := {| controlPoints := cps; cd_color := c; visible := true; metadata := m |}).
  destruct (fold_left _ _ _) as [[pos ld] dist].
  set (s2 := with_buffers (with_curveData s (<[Z.to_nat k:=cd]> (curveData s))) pos
               (colors (with_curveData s (<[Z.to_nat k:=cd]> (curveData s)))) ld).
  assert (Hs2 : curveData s2 !! Z.to_nat k = Some cd).
  { simpl. apply list_lookup_insert_eq. apply lookup_lt_Some in Hcd. exact Hcd. }
  destruct (_applyColorToCurve k s2) as [s3 |] eqn:Ea;
    [| exfalso; exact (applyColor_found k s2 cd Hs2 Ea)].
  assert (H3 : maxCurves s3 = maxCurves s /\ curveData s3 !! Z.to_nat k = Some cd).
  { destruct (applyColor_shape k s2 s3 Ea) as [-> | [col ->]]; auto. }
  destruct H3 as [M3 C3].
  destruct (currentCurveCount _ <=? k)%Z; eexists; (split; [reflexivity |]); exact (conj M3 C3).
Qed.

(** C1: for a slot in [0, maxCurves) and a control-point list of at least
    two points, [setCurve(slot, controlPoints, ...)] followed by
    [getPointAt(slot, 0)] gives the first control point and
    [getPointAt(slot, 1)] the last one (numbers as reals: the arc-length
    search and the curve polynomial are evaluated exactly). *)
Theorem getPointAt_endpoints k cps c m s cd0 :
  (0 <= k < Z.of_nat (maxCurves s))%Z -> (2 <= length cps)%nat ->
  curveData s !! Z.to_nat k = Some cd0 ->
  exists s', setCurve k cps c m s = Some s' /\
    getPointAt k 0 s' = Some (nth 0 cps vzero) /\
    getPointAt k 1 s' = Some (nth (length cps - 1) cps vzero).
Proof.
  intros Hk Hl Hcd.
  destruct (setCurve_stores k cps c m s cd0 Hk Hl Hcd) as (s' & Hs & Hm & Hc).
  exists s'. split; [exact Hs |].
  assert (Hg : getCurve k s' = Some (Some cps)).
  { unfold getCurve.
    replace (out_of_range s' k) with false
      by (symmetry; unfold out_of_range; apply orb_false_iff; rewrite Hm;
          split; [apply Z.ltb_ge | apply Z.leb_gt]; lia).
    rewrite Hc. simpl.
    replace (length cps <? 2)%nat with false by (symmetry; apply Nat.ltb_ge; lia).
    reflexivity. }
  unfold getPointAt. rewrite Hg.
  split; f_equal; [apply getPointAt_0 | apply getPointAt_1]; exact Hl.
Qed.

Definition two_points : list vec3 := [vzero; V3 10 0 0].

Lemma getPointAt_endpoints_witness :
  exists s', setCurve 0 two_points (CHex 16777215) MNull small = Some s' /\
    getPointAt 0 0 s' = Some vzero /\ getPointAt 0 1 s' = Some (V3 10 0 0).
Proof.
  exact (getPointAt_endpoints 0 two_points (CHex 16777215) MNull small
           {| controlPoints := []; cd_color := CHex 16777215; visible := false;
              metadata := MNull |}
           ltac:(split; [lia | reflexivity]) ltac:(simpl; lia) eq_refl).
Defined.

(** ** Further properties of the renderer and of its callers *)

(** *** Draw range, buffers and material across any sequence of calls *)

Lemma setCurve_effects k cps c m s s' :
  setCurve k cps c m s = Some s' ->
  s' = s \/
  (needsPositionUpdate s' = true /\ needsLineDistanceUpdate s' = true /\
   ((currentCurveCount s' = currentCurveCount s /\ drawCount s' = drawCount s) \/
    drawCount s' = (currentCurveCount s' * Z.of_nat (verticesPerCurve s'))%Z)).
Proof.
  unfold setCurve.
  destruct (out_of_range s k); [intros [= <-]; auto |].
  destruct (length cps <? 2)%nat; [intros [= <-]; auto |].
  destruct (curveData s !! Z.to_nat k); [| discriminate].
  destruct (fold_left _ _ _) as [[pos ld] dist].
  destruct (_applyColorToCurve k _) as [s3 |] eqn:Ea; [| discriminate].
  apply applyColor_frame in Ea as (_ & Hc & Hd & _).
  simpl in Hc, Hd.
  destruct (currentCurveCount _ <=? k)%Z; intros [= <-]; right;
    (split; [reflexivity | split; [reflexivity |]]).
  - right. reflexivity.
  - left. simpl. split; assumption.
Qed.

(** The draw range covers exactly [currentCurveCount] curves. *)
Definition draw_inv (s : Curves) : Prop :=
  drawCount s = (currentCurveCount s * Z.of_nat (verticesPerCurve s))%Z.

Lemma setDashPattern_counts d g s :
  currentCurveCount (setDashPattern d g s) = currentCurveCount s /\
  drawCount (setDashPattern d g s) = drawCount s /\
  segmentsPerCurve (setDashPattern d g s) = segmentsPerCurve s /\
  maxCurves (setDashPattern d g s) = maxCurves s.
Proof.
  unfold setDashPattern, updateMaterial.
  destruct (Req_EM_T _ _); [destruct (Req_EM_T _ _) |]; try (repeat split; reflexivity);
    simpl; destruct (meshPresent s); simpl; try (repeat split; reflexivity);
    destruct (Rlt_dec _ _); repeat split.
Qed.

Lemma remove_counts s :
  currentCurveCount (remove s) = currentCurveCount s /\
  drawCount (remove s) = drawCount s /\
  segmentsPerCurve (remove s) = segmentsPerCurve s /\
  maxCurves (remove s) = maxCurves s.
Proof. unfold remove. destruct (meshPresent s); repeat split. Qed.

Lemma step_draw_inv s o s' : draw_inv s -> step s o = Some s' -> draw_inv s'.
Proof.
  unfold draw_inv. intros H. destruct o; simpl.
  - intros E. pose proof (setCurve_frame _ _ _ _ _ _ E) as (_ & Fs & _).
    destruct (setCurve_effects _ _ _ _ _ _ E) as [-> | (_ & _ & [[Hc Hd] | Hd])];
      [exact H | | exact Hd].
    rewrite Hc, Hd, H. unfold verticesPerCurve. rewrite Fs. reflexivity.
  - intros E. pose proof (setCurveColor_frame _ _ _ _ _ E) as (_ & Fs & _).
    revert E. unfold setCurveColor.
    destruct (out_of_range s k); [intros [= <-]; exact H |].
    destruct (curveData s !! Z.to_nat k) as [cd |]; [| discriminate].
    destruct (negb (visible cd)); [intros [= <-]; exact H |].
    intros E. apply applyColor_frame in E as (_ & Hc & Hd & _).
    rewrite Hc, Hd. simpl. rewrite H. unfold verticesPerCurve. rewrite Fs. reflexivity.
  - intros E. pose proof (hideCurve_frame _ _ _ E) as (_ & Fs & _).
    revert E. unfold hideCurve.
    destruct (out_of_range s k); [intros [= <-]; exact H |].
    destruct (curveData s !! Z.to_nat k); [| discriminate].
    intros [= <-]. simpl. exact H.
  - intros [= <-]. reflexivity.
  - intros [= <-]. unfold applyUpdates.
    destruct (needsPositionUpdate s), (needsColorUpdate s),
      (createMaterialDashed (dashSize s) && needsLineDistanceUpdate s);
      try destruct (Req_EM_T _ _); exact H.
  - intros [= <-]. destruct (setDashPattern_counts d g s) as (Hc & Hd & Hs & _).
    rewrite Hc, Hd. unfold verticesPerCurve. rewrite Hs. exact H.
  - intros [= <-]. destruct (remove_counts s) as (Hc & Hd & Hs & _).
    rewrite Hc, Hd. unfold verticesPerCurve. rewrite Hs. exact H.
Qed.

Lemma run_draw_inv s ops : draw_inv s -> draw_inv (run s ops).
Proof.
  revert s. induction ops as [| o ops IH]; intros s H; simpl; [exact H |].
  destruct (step s o) eqn:E; apply IH; [exact (step_draw_inv s o c H E) | exact H].
Qed.

(** The geometry's draw range, [drawCount] vertices from 0, always covers
    exactly the first [currentCurveCount] curves: whatever calls are made on
    a new renderer, [drawCount = currentCurveCount * verticesPerCurve]. *)
Theorem drawRange_matches_count (mc seg : nat) (od og : option R) (ops : list op) :
  drawCount (run (new_Curves mc seg od og) ops) =
  (getCurrentCurveCount (run (new_Curves mc seg od og) ops) *
   Z.of_nat (verticesPerCurve (run (new_Curves mc seg od og) ops)))%Z.
Proof. apply run_draw_inv. reflexivity. Qed.

Lemma step_dims s o s' :
  step s o = Some s' ->
  maxCurves s' = maxCurves s /\ segmentsPerCurve s' = segmentsPerCurve s.
Proof.
  destruct o; simpl.
  - intros E. destruct (setCurve_frame _ _ _ _ _ _ E) as (A & B & _). auto.
  - intros E. destruct (setCurveColor_frame _ _ _ _ _ E) as (A & B & _). auto.
  - intros E. destruct (hideCurve_frame _ _ _ E) as (A & B & _). auto.
  - intros [= <-]. auto.
  - intros [= <-]. unfold applyUpdates.
    destruct (needsPositionUpdate s), (needsColorUpdate s),
      (createMaterialDashed (dashSize s) && needsLineDistanceUpdate s);
      try destruct (Req_EM_T _ _); auto.
  - intros [= <-]. destruct (setDashPattern_counts d g s) as (_ & _ & A & B). auto.
  - intros [= <-]. destruct (remove_counts s) as (_ & _ & A & B). auto.
Qed.

Lemma run_dims s ops :
  maxCurves (run s ops) = maxCurves s /\ segmentsPerCurve (run s ops) = segmentsPerCurve s.
Proof.
  revert s. induction ops as [| o ops IH]; intros s; simpl; [auto |].
  destruct (step s o) as [s' |] eqn:E; [| apply IH].
  destruct (step_dims s o s' E) as [A B]. destruct (IH s') as [C D]. split; congruence.
Qed.

(** The buffers allocated by [initialize()] are never reallocated: after
    any calls on a new renderer, [getMaxCurves()] and the segment count are
    those of the constructor, and the positions, colors and lineDistances
    arrays keep their lengths [maxCurves * verticesPerCurve * 3],
    [maxCurves * verticesPerCurve * 3] and [maxCurves * verticesPerCurve]. *)
Theorem buffers_keep_size (mc seg : nat) (od og : option R) (ops : list op) :
  let s0 := new_Curves mc seg od og in
  let s := run s0 ops in
  getMaxCurves s = getMaxCurves s0 /\ segmentsPerCurve s = segmentsPerCurve s0 /\
  length (positions s) = (getMaxCurves s0 * verticesPerCurve s0 * 3)%nat /\
  length (colors s) = (getMaxCurves s0 * verticesPerCurve s0 * 3)%nat /\
  length (lineDistances s) = (getMaxCurves s0 * verticesPerCurve s0)%nat.
Proof.
  intros s0 s.
  destruct (run_dims s0 ops) as [Hm Hs].
  destruct (run_zero_inv s0 ops (zero_inv_init mc seg od og)) as (P & C & L & _).
  fold s in Hm, Hs, P, C, L. unfold getMaxCurves.
  unfold verticesPerCurve in *. rewrite Hm, Hs in *. auto.
Qed.

Lemma setDashPattern_mesh d g s : meshPresent (setDashPattern d g s) = meshPresent s.
Proof.
  unfold setDashPattern, updateMaterial.
  destruct (Req_EM_T _ _); [destruct (Req_EM_T _ _); [reflexivity |] |];
    simpl; destruct (meshPresent s) eqn:Em; simpl; try reflexivity;
    destruct (Rlt_dec _ _); reflexivity.
Qed.

(** While the mesh exists, its material is dashed iff [dashSize > 0]. *)
Definition mat_inv (s : Curves) : Prop :=
  meshPresent s = true -> materialDashed s = createMaterialDashed (dashSize s).

Lemma step_mat_inv s o s' : mat_inv s -> step s o = Some s' -> mat_inv s'.
Proof.
  unfold mat_inv. intros H. destruct o; simpl.
  - intros E. destruct (setCurve_frame _ _ _ _ _ _ E) as (_ & _ & D & _ & M & T & _).
    rewrite M, T, D. exact H.
  - intros E. destruct (setCurveColor_frame _ _ _ _ _ E) as (_ & _ & D & _ & M & T & _).
    rewrite M, T, D. exact H.
  - intros E. destruct (hideCurve_frame _ _ _ E) as (_ & _ & D & _ & M & T & _).
    rewrite M, T, D. exact H.
  - intros [= <-]. exact H.
  - intros [= <-]. unfold applyUpdates.
    destruct (needsPositionUpdate s), (needsColorUpdate s),
      (createMaterialDashed (dashSize s) && needsLineDistanceUpdate s);
      try destruct (Req_EM_T _ _); exact H.
  - intros [= <-]. unfold setDashPattern, updateMaterial.
    destruct (Req_EM_T _ _); [destruct (Req_EM_T _ _); [exact H |] |];
      simpl; destruct (meshPresent s) eqn:Em; simpl; intros Hm; try discriminate Hm;
      destruct (Rlt_dec _ _); reflexivity.
  - intros [= <-]. unfold remove. destruct (meshPresent s) eqn:Em; simpl; intros Hm; congruence.
Qed.

Lemma run_mat_inv s ops : mat_inv s -> mat_inv (run s ops).
Proof.
  revert s. induction ops as [| o ops IH]; intros s H; simpl; [exact H |].
  destruct (step s o) eqn:E; apply IH; [exact (step_mat_inv s o c H E) | exact H].
Qed.

(** Whatever calls are made on a new renderer, as long as it [exists()]
    (no [remove()]), its material is a [LineDashedMaterial] exactly when
    [dashSize > 0], and a [LineBasicMaterial] otherwise. *)
Theorem material_matches_dashSize (mc seg : nat) (od og : option R) (ops : list op) :
  exists_ (run (new_Curves mc seg od og) ops) = true ->
  materialDashed (run (new_Curves mc seg od og) ops) =
  createMaterialDashed (dashSize (run (new_Curves mc seg od og) ops)).
Proof. apply run_mat_inv. intros _. reflexivity. Qed.

Lemma material_matches_dashSize_witness :
  exists_ (run small [OSetDashPattern 2 1]) = true /\
  materialDashed (run small [OSetDashPattern 2 1]) =
  createMaterialDashed (dashSize (run small [OSetDashPattern 2 1])).
Proof.
  assert (E : exists_ (run small [OSetDashPattern 2 1]) = true).
  { change (run small [OSetDashPattern 2 1]) with (setDashPattern 2 1 small).
    unfold exists_. rewrite setDashPattern_mesh. reflexivity. }
  split; [exact E | exact (material_matches_dashSize 2 1 None None _ E)].
Defined.

(** *** A constructor [dashSize] of 0 or less *)

(** The calls other than [setDashPattern]. *)
Definition keeps_dash (o : op) : Prop :=
  match o with OSetDashPattern _ _ => False | _ => True end.

Lemma createMaterialDashed_nonpos d : d <= 0 -> createMaterialDashed d = false.
Proof. intros H. unfold createMaterialDashed. destruct (Rlt_dec 0 d); [lra | reflexivity]. Qed.

Lemma step_nonpos_dash s o s' :
  dashSize s <= 0 -> keeps_dash o -> step s o = Some s' ->
  dashSize s' = dashSize s /\ lineDistanceVersion s' = lineDistanceVersion s /\
  (dashSize s < 0 -> needsLineDistanceUpdate s = true ->
   needsLineDistanceUpdate s' = true).
Proof.
  intros Hd Hk. destruct o; simpl in Hk |- *; try contradiction.
  - intros E. destruct (setCurve_frame _ _ _ _ _ _ E) as (_ & _ & D & _ & _ & _ & _ & _ & V).
    split; [exact D | split; [exact V |]]. intros _ Hn.
    destruct (setCurve_effects _ _ _ _ _ _ E) as [-> | (_ & L & _)]; assumption.
  - intros E. destruct (setCurveColor_frame _ _ _ _ _ E) as (_ & _ & D & _ & _ & _ & _ & _ & V).
    split; [exact D | split; [exact V |]]. intros _ Hn. revert E. unfold setCurveColor.
    destruct (out_of_range s k); [intros [= <-]; exact Hn |].
    destruct (curveData s !! Z.to_nat k) as [cd |]; [| discriminate].
    destruct (negb (visible cd)); [intros [= <-]; exact Hn |].
    intros E. apply applyColor_frame in E as (_ & _ & _ & _ & _ & _ & _ & L).
    rewrite L. exact Hn.
  - intros E. destruct (hideCurve_frame _ _ _ E) as (_ & _ & D & _ & _ & _ & _ & _ & V).
    split; [exact D | split; [exact V |]]. intros _ Hn. revert E. unfold hideCurve.
    destruct (out_of_range s k); [intros [= <-]; exact Hn |].
    destruct (curveData s !! Z.to_nat k); [| discriminate].
    intros [= <-]. reflexivity.
  - intros [= <-]. auto.
  - intros [= <-]. unfold applyUpdates.
    rewrite (createMaterialDashed_nonpos _ Hd). simpl.
    destruct (needsPositionUpdate s), (needsColorUpdate s);
      destruct (Req_EM_T (dashSize s) 0); simpl; (split; [reflexivity | split; [reflexivity |]]);
      intros Hlt Hn; [lra | exact Hn | lra | exact Hn | lra | exact Hn | lra | exact Hn].
  - intros [= <-]. unfold remove. destruct (meshPresent s); auto.
Qed.

(** With a [dashSize] of 0 or less (which the constructor keeps as given,
    unlike [setDashPattern], which clamps negative values to 0), calls other
    than [setDashPattern] never change [dashSize] and never upload the
    lineDistance attribute; and with a negative [dashSize], a pending
    [needsLineDistanceUpdate] is never cleared, not even by [applyUpdates]. *)
Theorem nonpositive_dash_no_lineDistance_upload (s : Curves) (ops : list op) :
  dashSize s <= 0 -> Forall keeps_dash ops ->
  dashSize (run s ops) = dashSize s /\
  lineDistanceVersion (run s ops) = lineDistanceVersion s /\
  (dashSize s < 0 -> needsLineDistanceUpdate s = true ->
   needsLineDistanceUpdate (run s ops) = true).
Proof.
  revert s. induction ops as [| o ops IH]; intros s Hd Hops; simpl; [auto |].
  inversion Hops as [| o' ops' Ho Hrest]; subst.
  destruct (step s o) as [s' |] eqn:E; [| exact (IH s Hd Hrest)].
  destruct (step_nonpos_dash s o s' Hd Ho E) as (D & V & N).
  rewrite <- D in Hd.
  destruct (IH s' Hd Hrest) as (D' & V' & N').
  split; [congruence | split; [congruence |]].
  intros Hlt Hn. apply N'; [lra | apply N; assumption].
Qed.

(** [new Curves(scene, {dashSize: -1})], a curve set, then two
    [applyUpdates()]: the lineDistance flag stays set. *)
Definition negative_dash : Curves := new_Curves 2 1 (Some (-1)) None.

Definition set_then_update : list op :=
  [OSetCurve 0 [vzero; V3 10 0 0] (CHex 16777215) MNull; OApplyUpdates; OApplyUpdates].

Lemma run_step_some s o ops s' : step s o = Some s' -> run s (o :: ops) = run s' ops.
Proof. intros E. simpl. rewrite E. reflexivity. Qed.

(** A renderer with [dashSize = 0] right after a [setCurve]: the position
    and lineDistance flags are set, one [applyUpdates] clears them without
    uploading the line distances, and a second one changes nothing. *)
Definition zero_dash : Curves := new_Curves 2 1 (Some 0) None.

Lemma applyUpdates_idempotent_witness :
  exists s, (run zero_dash [OSetCurve 0 two_points (CHex 255) MNull] = s) /\
    needsPositionUpdate s = true /\ needsLineDistanceUpdate s = true /\ dashSize s = 0 /\
    needsPositionUpdate (applyUpdates s) = false /\
    needsLineDistanceUpdate (applyUpdates s) = false /\
    lineDistanceVersion (applyUpdates s) = lineDistanceVersion s /\
    applyUpdates (applyUpdates s) = applyUpdates s.
Proof.
  destruct (setCurve_stores 0 two_points (CHex 255) MNull zero_dash
              {| controlPoints := []; cd_color := CHex 16777215;
                 visible := false; metadata := MNull |}) as (s1 & E & _ & Hs1);
    [simpl; lia | simpl; lia | reflexivity |].
  assert (Hr : run zero_dash [OSetCurve 0 two_points (CHex 255) MNull] = s1).
  { rewrite (run_step_some zero_dash (OSetCurve 0 two_points (CHex 255) MNull) [] s1 E).
    reflexivity. }
  assert (Hd : dashSize s1 = 0).
  { destruct (setCurve_frame _ _ _ _ _ _ E) as (_ & _ & D & _). rewrite D. reflexivity. }
  destruct (setCurve_effects _ _ _ _ _ _ E) as [Hs | (P & L & _)].
  { exfalso. rewrite Hs in Hs1. simpl in Hs1. injection Hs1 as Hv. discriminate Hv. }
  destruct (applyUpdates_idempotent 2 1 (Some 0) None s1)
    as (P' & _ & L' & I & V).
  - simpl. lra.
  - exists [OSetCurve 0 two_points (CHex 255) MNull]. exact Hr.
  - exists s1. repeat split; auto.
Defined.

Lemma nonpositive_dash_no_lineDistance_upload_witness :
  needsLineDistanceUpdate (run negative_dash set_then_update) = true /\
  lineDistanceVersion (run negative_dash set_then_update) = 0%nat.
Proof.
  assert (Hd : dashSize negative_dash <= 0) by (simpl; lra).
  destruct (setCurve_stores 0 [vzero; V3 10 0 0] (CHex 16777215) MNull negative_dash
              {| controlPoints := []; cd_color := CHex 16777215;
                 visible := false; metadata := MNull |}) as (s1 & E & _ & Hs1);
    [simpl; lia | simpl; lia | reflexivity |].
  destruct (nonpositive_dash_no_lineDistance_upload negative_dash set_then_update Hd
              ltac:(repeat constructor)) as (_ & V & _).
  split; [| exact V].
  unfold set_then_update.
  rewrite (run_step_some negative_dash
             (OSetCurve 0 [vzero; V3 10 0 0] (CHex 16777215) MNull) _ s1 E).
  destruct (setCurve_frame _ _ _ _ _ _ E) as (_ & _ & D & _).
  destruct (nonpositive_dash_no_lineDistance_upload s1 [OApplyUpdates; OApplyUpdates])
    as (_ & _ & N1); [rewrite D; exact Hd | repeat constructor |].
  apply N1; [rewrite D; simpl; lra |].
  destruct (setCurve_effects _ _ _ _ _ _ E) as [Hs | (_ & L & _)]; [| exact L].
  rewrite Hs in Hs1. simpl in Hs1. injection Hs1 as Hv. discriminate Hv.
Defined.

(** *** [setDashPattern] *)

Lemma updateMaterial_dash s :
  dashSize (updateMaterial s) = dashSize s /\ gapSize (updateMaterial s) = gapSize s.
Proof.
  unfold updateMaterial. destruct (negb (meshPresent s)); [auto |].
  destruct (Rlt_dec 0 (dashSize s)); simpl; auto.
Qed.

Lemma setDashPattern_sizes d g s :
  dashSize (setDashPattern d g s) = Rmax 0 d /\ gapSize (setDashPattern d g s) = Rmax 0 g.
Proof.
  unfold setDashPattern.
  destruct (Req_EM_T (dashSize s) (Rmax 0 d)) as [Ed |];
    [destruct (Req_EM_T (gapSize s) (Rmax 0 g)) as [Eg |]; [auto |] |];
    destruct (updateMaterial_dash (with_material s (Rmax 0 d) (Rmax 0 g)
                                    (meshPresent s) (materialDashed s))) as [D G];
    rewrite D, G; auto.
Qed.

(** [setDashPattern(d, g)] stores [max(0, d)] and [max(0, g)], so negative
    sizes are clamped to 0; and repeating the call with the same arguments
    returns the object unchanged (the early return fires, so no material is
    rebuilt and no attribute is marked for upload). *)
Theorem setDashPattern_clamped_idempotent (d g : R) (s : Curves) :
  dashSize (setDashPattern d g s) = Rmax 0 d /\
  gapSize (setDashPattern d g s) = Rmax 0 g /\
  setDashPattern d g (setDashPattern d g s) = setDashPattern d g s.
Proof.
  destruct (setDashPattern_sizes d g s) as [D G].
  split; [exact D | split; [exact G |]].
  unfold setDashPattern at 1.
  destruct (Req_EM_T (dashSize (setDashPattern d g s)) (Rmax 0 d)) as [_ | N]; [| contradiction].
  destruct (Req_EM_T (gapSize (setDashPattern d g s)) (Rmax 0 g)) as [_ | N]; [| contradiction].
  reflexivity.
Qed.

(** *** [FlightPathManager] *)

Lemma applyUpdates_sizes s :
  dashSize (applyUpdates s) = dashSize s /\ gapSize (applyUpdates s) = gapSize s.
Proof.
  unfold applyUpdates.
  destruct (needsPositionUpdate s), (needsColorUpdate s);
    destruct (createMaterialDashed (dashSize s) && needsLineDistanceUpdate s);
    try destruct (Req_EM_T (dashSize s) 0); simpl; auto.
Qed.

Lemma applyUpdates_clears s :
  0 <= dashSize s ->
  needsPositionUpdate (applyUpdates s) = false /\
  needsColorUpdate (applyUpdates s) = false /\
  needsLineDistanceUpdate (applyUpdates s) = false.
Proof.
  intros Hd. unfold applyUpdates, createMaterialDashed.
  destruct (Rlt_dec 0 (dashSize s)) as [Hp | Hp].
  - destruct (needsPositionUpdate s) eqn:P, (needsColorUpdate s) eqn:C,
      (needsLineDistanceUpdate s) eqn:L; simpl;
      try destruct (Req_EM_T (dashSize s) 0); simpl; rewrite ?P, ?C, ?L;
      auto; lra.
  - assert (E : dashSize s = 0) by lra.
    destruct (needsPositionUpdate s) eqn:P, (needsColorUpdate s) eqn:C; simpl;
      destruct (Req_EM_T (dashSize s) 0); simpl; rewrite ?P, ?C; auto; lra.
Qed.

Lemma applyDashPattern_some m c :
  mergedCurves m = Some c ->
  exists c', mergedCurves (applyDashPattern m) = Some c' /\
    params_dashSize (applyDashPattern m) = params_dashSize m /\
    params_gapSize (applyDashPattern m) = params_gapSize m /\
    dashSize c' = Rmax 0 (params_dashSize m) /\ gapSize c' = Rmax 0 (params_gapSize m) /\
    needsPositionUpdate c' = false /\ needsColorUpdate c' = false /\
    needsLineDistanceUpdate c' = false.
Proof.
  intros Hc. unfold applyDashPattern. rewrite Hc.
  set (c1 := setDashPattern (params_dashSize m) (params_gapSize m) c).
  exists (applyUpdates c1). simpl.
  destruct (setDashPattern_sizes (params_dashSize m) (params_gapSize m) c) as [D G].
  destruct (applyUpdates_sizes c1) as [D' G'].
  assert (Hd : 0 <= dashSize c1) by (unfold c1; rewrite D; apply Rmax_l).
  destruct (applyUpdates_clears c1 Hd) as (P & C & L).
  repeat split; auto; [rewrite D'; exact D | rewrite G'; exact G].
Qed.

(** [applyDashPattern()] on a manager whose renderer exists hands the
    manager's dash and gap sizes to the renderer, clamped to 0 from below,
    and leaves no attribute update pending: after the [applyUpdates()] it
    calls, none of the three [needsUpdate] flags is set. The manager's own
    parameters are not changed. *)
Theorem applyDashPattern_syncs (m : FlightPathManager) (c : Curves) :
  mergedCurves m = Some c ->
  exists c', mergedCurves (applyDashPattern m) = Some c' /\
    params_dashSize (applyDashPattern m) = params_dashSize m /\
    params_gapSize (applyDashPattern m) = params_gapSize m /\
    dashSize c' = Rmax 0 (params_dashSize m) /\ gapSize c' = Rmax 0 (params_gapSize m) /\
    needsPositionUpdate c' = false /\ needsColorUpdate c' = false /\
    needsLineDistanceUpdate c' = false.
Proof. apply applyDashPattern_some. Qed.

Definition manager_of (c : Curves) : FlightPathManager :=
  {| params_dashSize := -2; params_gapSize := 1; mergedCurves := Some c |}.

Lemma applyDashPattern_syncs_witness :
  exists c', mergedCurves (applyDashPattern (manager_of small)) = Some c' /\
    dashSize c' = 0 /\ needsLineDistanceUpdate c' = false.
Proof.
  destruct (applyDashPattern_syncs (manager_of small) small eq_refl)
    as (c' & E & _ & _ & D & _ & _ & _ & L).
  exists c'. split; [exact E | split; [| exact L]].
  rewrite D. simpl. apply Rmax_le_l. lra.
Defined.

(** [setDashSize(value)] does nothing (not even a call to the renderer)
    when [value] is not a finite number or equals the current dash size;
    otherwise it stores [value] as the manager's dash size and, when the
    renderer exists, applies the new dash pattern to it with the dash size
    clamped to 0 from below, the gap size kept, and no update left
    pending. *)
Theorem setDashSize_effect (value : option R) (m : FlightPathManager) :
  ((value = None \/ value = Some (params_dashSize m)) -> setDashSize value m = m) /\
  (forall v, value = Some v -> v <> params_dashSize m ->
     params_dashSize (setDashSize value m) = v /\
     params_gapSize (setDashSize value m) = params_gapSize m /\
     (mergedCurves m = None -> mergedCurves (setDashSize value m) = None) /\
     (forall c, mergedCurves m = Some c ->
        exists c', mergedCurves (setDashSize value m) = Some c' /\
          dashSize c' = Rmax 0 v /\ gapSize c' = Rmax 0 (params_gapSize m) /\
          needsPositionUpdate c' = false /\ needsColorUpdate c' = false /\
          needsLineDistanceUpdate c' = false)).
Proof.
  split.
  - intros [-> | ->]; unfold setDashSize;
      (destruct (Req_EM_T (params_dashSize m) (params_dashSize m)); [reflexivity | contradiction]).
  - intros v -> Hne. unfold setDashSize.
    destruct (Req_EM_T (params_dashSize m) v) as [E | _]; [symmetry in E; contradiction |].
    set (m1 := {| params_dashSize := v; params_gapSize := params_gapSize m;
                  mergedCurves := mergedCurves m |}).
    destruct (mergedCurves m) as [c |] eqn:Hc.
    + destruct (applyDashPattern_some m1 c eq_refl) as (c' & E & P & G & D & Gc & N).
      split; [rewrite P; reflexivity | split; [rewrite G; reflexivity |]].
      split; [discriminate |]. intros c0 [= <-]. exists c'. auto.
    + unfold applyDashPattern. simpl.
      repeat split; [discriminate].
Qed.

Lemma setDashSize_effect_witness :
  setDashSize None (manager_of small) = manager_of small /\
  params_dashSize (setDashSize (Some 3) (manager_of small)) = 3.
Proof.
  split.
  - apply (proj1 (setDashSize_effect None (manager_of small))). left. reflexivity.
  - apply (proj2 (setDashSize_effect (Some 3) (manager_of small)) 3 eq_refl). simpl. lra.
Defined.

(** *** Queries after [setCurve], [hideCurve] and [remove] *)

Lemma in_range_ok s k :
  (0 <= k < Z.of_nat (maxCurves s))%Z -> out_of_range s k = false.
Proof.
  intros Hk. unfold out_of_range. apply orb_false_iff.
  split; [apply Z.ltb_ge | apply Z.leb_gt]; lia.
Qed.

Lemma queries_hidden s k cd t :
  out_of_range s k = false -> curveData s !! Z.to_nat k = Some cd -> visible cd = false ->
  isCurveVisible k s = Some false /\ getCurve k s = Some None /\
  Curves.getPointAt k t s = Some vzero /\ Curves.getTangentAt k t s = Some (V3 0 0 1).
Proof.
  intros Ho Hl Hv.
  assert (G : getCurve k s = Some None) by (unfold getCurve; rewrite Ho, Hl, Hv; reflexivity).
  unfold isCurveVisible, Curves.getPointAt, Curves.getTangentAt.
  rewrite G, Ho, Hl, Hv. auto.
Qed.

Lemma hideCurve_stores k s cd :
  out_of_range s k = false -> curveData s !! Z.to_nat k = Some cd ->
  exists s', hideCurve k s = Some s' /\ maxCurves s' = maxCurves s /\
    curveData s' = <[Z.to_nat k := {| controlPoints := controlPoints cd; cd_color := cd_color cd;
                                      visible := false; metadata := metadata cd |}]>
                   (curveData s).
Proof.
  intros Ho Hl. unfold hideCurve. rewrite Ho, Hl. eexists. split; [reflexivity |]. auto.
Qed.

(** After [setCurve(k, cps, ...)] with a valid index [k] and at least two
    control points, curve [k] is visible and [getCurve(k)] is the curve
    through [cps], whose points [getPointAt(k, t)] returns; after a
    following [hideCurve(k)], curve [k] is not visible, [getCurve(k)] is
    [null], and [getPointAt(k, t)] and [getTangentAt(k, t)] return the
    fallbacks [(0, 0, 0)] and [(0, 0, 1)]. *)
Theorem set_then_hide_queries (k : Z) (cps : list vec3) (c : ColorArg) (m : Meta)
    (s : Curves) (cd0 : CurveData) (t : R) :
  (0 <= k < Z.of_nat (maxCurves s))%Z -> (2 <= length cps)%nat ->
  curveData s !! Z.to_nat k = Some cd0 ->
  exists s1, setCurve k cps c m s = Some s1 /\
    isCurveVisible k s1 = Some true /\ getCurve k s1 = Some (Some cps) /\
    Curves.getPointAt k t s1 = Some (Three.getPointAt cps t) /\
    exists s2, hideCurve k s1 = Some s2 /\
      isCurveVisible k s2 = Some false /\ getCurve k s2 = Some None /\
      Curves.getPointAt k t s2 = Some vzero /\
      Curves.getTangentAt k t s2 = Some (V3 0 0 1).
Proof.
  intros Hk Hl Hcd.
  destruct (setCurve_stores k cps c m s cd0 Hk Hl Hcd) as (s1 & E & Hm & Hl1).
  assert (Ho1 : out_of_range s1 k = false) by (apply in_range_ok; rewrite Hm; exact Hk).
  assert (G1 : getCurve k s1 = Some (Some cps)).
  { unfold getCurve. rewrite Ho1, Hl1. simpl.
    replace (length cps <? 2)%nat with false by (symmetry; apply Nat.ltb_ge; lia).
    reflexivity. }
  exists s1. split; [exact E |].
  split; [unfold isCurveVisible; rewrite Ho1, Hl1; reflexivity |].
  split; [exact G1 |].
  split; [unfold Curves.getPointAt; rewrite G1; reflexivity |].
  destruct (hideCurve_stores k s1 _ Ho1 Hl1) as (s2 & E2 & Hm2 & Hd2).
  exists s2. split; [exact E2 |].
  apply (queries_hidden s2 k
           {| controlPoints := cps; cd_color := c; visible := false; metadata := m |} t).
  - apply in_range_ok. rewrite Hm2, Hm. exact Hk.
  - rewrite Hd2. apply list_lookup_insert_eq. apply lookup_lt_Some in Hl1. exact Hl1.
  - reflexivity.
Qed.

Lemma set_then_hide_queries_witness :
  exists s1, setCurve 0 two_points (CHex 255) MNull small = Some s1 /\
    isCurveVisible 0 s1 = Some true /\
    exists s2, hideCurve 0 s1 = Some s2 /\ Curves.getTangentAt 0 (1/2) s2 = Some (V3 0 0 1).
Proof.
  destruct (set_then_hide_queries 0 two_points (CHex 255) MNull small
              {| controlPoints := []; cd_color := CHex 16777215;
                 visible := false; metadata := MNull |} (1/2))
    as (s1 & E & V & _ & _ & s2 & E2 & _ & _ & _ & T);
    [simpl; lia | simpl; lia | reflexivity |].
  exists s1. split; [exact E | split; [exact V |]]. exists s2. auto.
Defined.

(** After [remove()], [exists()] is false and the object has no curve data
    left: for every index [k] within [maxCurves], [isCurveVisible(k)],
    [getCurve(k)], [getPointAt(k, t)], [getTangentAt(k, t)], [hideCurve(k)],
    [setCurveColor(k, ...)] and [setCurve(k, cps, ...)] with at least two
    control points all throw (they read a field of [curveData[k]], which
    is [undefined]); the capacity and the visible count are kept. *)
Theorem remove_then_calls_throw (s : Curves) (k : Z) (t : R) (cps : list vec3)
    (c : ColorArg) (m : Meta) (om : option Meta) :
  (0 <= k < Z.of_nat (maxCurves s))%Z -> (2 <= length cps)%nat ->
  exists_ (remove s) = false /\
  getMaxCurves (remove s) = getMaxCurves s /\
  getCurrentCurveCount (remove s) = getCurrentCurveCount s /\
  isCurveVisible k (remove s) = None /\ getCurve k (remove s) = None /\
  Curves.getPointAt k t (remove s) = None /\ Curves.getTangentAt k t (remove s) = None /\
  hideCurve k (remove s) = None /\ setCurveColor k c om (remove s) = None /\
  setCurve k cps c m (remove s) = None.
Proof.
  intros Hk Hl.
  assert (Hm : maxCurves (remove s) = maxCurves s)
    by (unfold remove; destruct (meshPresent s); reflexivity).
  assert (Ho : out_of_range (remove s) k = false) by (apply in_range_ok; rewrite Hm; exact Hk).
  assert (Hd : curveData (remove s) !! Z.to_nat k = None)
    by (unfold remove; destruct (meshPresent s); reflexivity).
  assert (G : getCurve k (remove s) = None) by (unfold getCurve; rewrite Ho, Hd; reflexivity).
  split; [unfold exists_, remove; destruct (meshPresent s) eqn:Em; [reflexivity | exact Em] |].
  split; [unfold getMaxCurves; exact Hm |].
  split; [unfold getCurrentCurveCount, remove; destruct (meshPresent s); reflexivity |].
  split; [unfold isCurveVisible; rewrite Ho, Hd; reflexivity |].
  split; [exact G |].
  split; [unfold Curves.getPointAt; rewrite G; reflexivity |].
  split; [unfold Curves.getTangentAt; rewrite G; reflexivity |].
  split; [unfold hideCurve; rewrite Ho, Hd; reflexivity |].
  split; [unfold setCurveColor; rewrite Ho, Hd; reflexivity |].
  unfold setCurve. rewrite Ho.
  replace (length cps <? 2)%nat with false by (symmetry; apply Nat.ltb_ge; lia).
  rewrite Hd. reflexivity.
Qed.

Lemma remove_then_calls_throw_witness :
  exists_ (remove small) = false /\ hideCurve 1 (remove small) = None.
Proof.
  destruct (remove_then_calls_throw small 1 0 two_points (CHex 255) MNull None)
    as (X & _ & _ & _ & _ & _ & _ & H & _); [simpl; lia | simpl; lia |].
  auto.
Defined.

(** *** [setCurveColor] *)

Lemma setCurveColor_counts k c m s s' :
  setCurveColor k c m s = Some s' ->
  currentCurveCount s' = currentCurveCount s /\ drawCount s' = drawCount s.
Proof.
  unfold setCurveColor.
  destruct (out_of_range s k); [intros [= <-]; auto |].
  destruct (curveData s !! Z.to_nat k) as [cd |]; [| discriminate].
  destruct (negb (visible cd)); [intros [= <-]; auto |].
  intros E. apply applyColor_frame in E as (_ & C & D & _). simpl in C, D. auto.
Qed.

(** [setCurveColor] only recolours: it never moves a curve (the positions
    and lineDistances buffers are unchanged), never shows or hides one and
    never changes one's control points, and leaves the visible count and the
    draw range as they were. *)
Theorem setCurveColor_only_recolors (k : Z) (c : ColorArg) (m : option Meta)
    (s s' : Curves) :
  setCurveColor k c m s = Some s' ->
  positions s' = positions s /\ lineDistances s' = lineDistances s /\
  currentCurveCount s' = currentCurveCount s /\ drawCount s' = drawCount s /\
  (forall j, option_map controlPoints (curveData s' !! j) =
             option_map controlPoints (curveData s !! j) /\
             option_map visible (curveData s' !! j) = option_map visible (curveData s !! j)).
Proof.
  intros E. destruct (setCurveColor_counts _ _ _ _ _ E) as [C D].
  destruct (setCurveColor_data _ _ _ _ _ E) as [-> | (cd & Hl & _ & Hd & _ & Hp & Hld)];
    [repeat split; auto |].
  split; [exact Hp | split; [exact Hld | split; [exact C | split; [exact D |]]]].
  intros j. rewrite Hd.
  destruct (decide (j = Z.to_nat k)) as [-> | Hne].
  - rewrite list_lookup_insert_eq by (apply lookup_lt_Some in Hl; exact Hl).
    rewrite Hl. auto.
  - rewrite list_lookup_insert_ne by congruence. auto.
Qed.

Lemma setCurveColor_only_recolors_witness :
  exists s1 s2, setCurve 0 two_points (CHex 255) MNull small = Some s1 /\
    setCurveColor 0 (CHex 65280) None s1 = Some s2 /\ positions s2 = positions s1.
Proof.
  destruct (setCurve_stores 0 two_points (CHex 255) MNull small
              {| controlPoints := []; cd_color := CHex 16777215;
                 visible := false; metadata := MNull |}) as (s1 & E & Hm & Hl);
    [simpl; lia | simpl; lia | reflexivity |].
  assert (Ho : out_of_range s1 0 = false) by (apply in_range_ok; rewrite Hm; simpl; lia).
  destruct (setCurveColor 0 (CHex 65280) None s1) as [s2 |] eqn:E2.
  - exists s1, s2. split; [exact E | split; [exact E2 |]].
    apply (setCurveColor_only_recolors 0 (CHex 65280) None s1 s2 E2).
  - exfalso. unfold setCurveColor in E2. rewrite Ho, Hl in E2. cbn [negb visible] in E2.
    refine (applyColor_found _ _ _ _ E2). simpl curveData.
    apply list_lookup_insert_eq. apply lookup_lt_Some in Hl. exact Hl.
Defined.

(** *** [hideCurve] *)

Lemma zero_range_idem buf off n :
  zero_range (zero_range buf off n) off n = zero_range buf off n.
Proof.
  apply list_eq. intros x.
  destruct (decide (off <= x < off + n)%nat) as [Hin | Hout].
  - destruct (decide (x < length buf)%nat) as [Hx | Hx].
    + rewrite !zero_range_lookup_in; rewrite ?zero_range_length; auto.
    + rewrite !lookup_ge_None_2; rewrite ?zero_range_length; auto; lia.
  - rewrite !zero_range_lookup_ne by lia. reflexivity.
Qed.

(** Hiding a curve twice is the same as hiding it once: a second
    [hideCurve(k)] leaves the object exactly as the first one left it. *)
Theorem hideCurve_idempotent (k : Z) (s s1 : Curves) :
  hideCurve k s = Some s1 -> hideCurve k s1 = Some s1.
Proof.
  unfold hideCurve at 1.
  destruct (out_of_range s k) eqn:Ho; [intros [= <-]; unfold hideCurve; rewrite Ho; reflexivity |].
  destruct (curveData s !! Z.to_nat k) as [cd |] eqn:Hl; [| discriminate].
  intros [= <-].
  pose proof (lookup_lt_Some _ _ _ Hl) as Hlen.
  match goal with |- hideCurve k ?t = _ => set (s1 := t) end.
  assert (Ho1 : out_of_range s1 k = false) by exact Ho.
  assert (Hl1 : curveData s1 !! Z.to_nat k =
                Some {| controlPoints := controlPoints cd; cd_color := cd_color cd;
                        visible := false; metadata := metadata cd |})
    by (apply list_lookup_insert_eq; exact Hlen).
  unfold hideCurve at 1. rewrite Ho1, Hl1. f_equal.
  subst s1. clear Ho1 Hl1. destruct s.
  cbv beta iota delta [with_flags with_buffers with_curveData verticesPerCurve
       maxCurves segmentsPerCurve dashSize gapSize positions colors lineDistances
       currentCurveCount drawCount needsPositionUpdate needsColorUpdate
       needsLineDistanceUpdate curveData meshPresent materialDashed positionVersion
       colorVersion lineDistanceVersion controlPoints cd_color metadata visible].
  rewrite list_insert_insert, decide_True by reflexivity.
  rewrite !zero_range_idem. reflexivity.
Qed.

Lemma hideCurve_idempotent_witness :
  exists s1, hideCurve 0 small = Some s1 /\ hideCurve 0 s1 = Some s1.
Proof.
  destruct (hideCurve_stores 0 small {| controlPoints := []; cd_color := CHex 16777215;
                                        visible := false; metadata := MNull |})
    as (s1 & E & _); [reflexivity | reflexivity |].
  exists s1. split; [exact E |]. exact (hideCurve_idempotent 0 small s1 E).
Defined.

(** *** [getTangentAt] *)

Lemma sum_squares_zero x y z :
  x * x + y * y + z * z = 0 -> x = 0 /\ y = 0 /\ z = 0.
Proof.
  intros H.
  pose proof (Rle_0_sqr x). pose proof (Rle_0_sqr y). pose proof (Rle_0_sqr z).
  unfold Rsqr in *.
  assert (Hx : x * x = 0) by lra. assert (Hy : y * y = 0) by lra.
  assert (Hz : z * z = 0) by lra.
  split; [| split]; apply Rsqr_0_uniq; unfold Rsqr; assumption.
Qed.

Lemma normalize_unit_or_zero w : vlength (normalize w) = 1 \/ normalize w = vzero.
Proof.
  unfold normalize. set (l := vlength w).
  assert (Hs : 0 <= vx w * vx w + vy w * vy w + vz w * vz w).
  { pose proof (Rle_0_sqr (vx w)). pose proof (Rle_0_sqr (vy w)).
    pose proof (Rle_0_sqr (vz w)). unfold Rsqr in *. lra. }
  assert (Hl : l * l = vx w * vx w + vy w * vy w + vz w * vz w) by (apply sqrt_sqrt; exact Hs).
  destruct (Req_EM_T l 0) as [E | N].
  - right. rewrite E in Hl.
    destruct (sum_squares_zero (vx w) (vy w) (vz w)) as (X & Y & Z); [lra |].
    unfold vzero. rewrite X, Y, Z. f_equal; field.
  - left. unfold vlength. cbn [vx vy vz].
    replace (vx w * (1 / l) * (vx w * (1 / l)) + vy w * (1 / l) * (vy w * (1 / l)) +
             vz w * (1 / l) * (vz w * (1 / l)))
      with ((vx w * vx w + vy w * vy w + vz w * vz w) / (l * l)) by (field; exact N).
    rewrite <- Hl. unfold Rdiv. rewrite Rinv_r by (apply Rmult_integral_contrapositive; auto).
    apply sqrt_1.
Qed.

(** [getTangentAt(k, t)] always returns a unit vector, except the zero
    vector when the curve's two sample points around [t] coincide (the
    [length() || 1] fallback of [normalize]); the fallback [(0, 0, 1)] for
    a hidden or unset curve is a unit vector too. *)
Theorem getTangentAt_unit_or_zero (k : Z) (t : R) (s : Curves) (v : vec3) :
  Curves.getTangentAt k t s = Some v -> vlength v = 1 \/ v = vzero.
Proof.
  unfold Curves.getTangentAt.
  destruct (getCurve k s) as [[cps |] |]; intros E; [| | discriminate]; injection E as <-.
  - apply normalize_unit_or_zero.
  - left. unfold vlength. cbn [vx vy vz].
    replace (0 * 0 + 0 * 0 + 1 * 1) with 1 by ring. apply sqrt_1.
Qed.

Lemma getTangentAt_unit_or_zero_witness :
  vlength (V3 0 0 1) = 1 \/ V3 0 0 1 = vzero.
Proof.
  apply (getTangentAt_unit_or_zero 0 0 small (V3 0 0 1)). reflexivity.
Defined.

(** *** [Controls.formatColor] *)

Section FormatColor.

Import Stdlib.Strings.String Stdlib.Strings.Ascii Controls.
Local Open Scope string_scope.

(** Reading back a hexadecimal string, as [parseInt(s, 16)] does on the
    digits [0-9a-f]. *)
Definition hex_char_value (c : ascii) : Z :=
  let k := Z.of_nat (nat_of_ascii c) in
  if (k <? 58)%Z then (k - 48)%Z else (k - 87)%Z.

Definition is_hex_char (c : ascii) : bool :=
  let k := nat_of_ascii c in
  (Nat.leb 48 k && Nat.leb k 57) || (Nat.leb 97 k && Nat.leb k 102).

Fixpoint hex_value (s : string) : Z :=
  match s with
  | EmptyString => 0%Z
  | String c s' => (hex_char_value c * 16 ^ Z.of_nat (length s') + hex_value s')%Z
  end.

Fixpoint all_hex (s : string) : bool :=
  match s with
  | EmptyString => true
  | String c s' => is_hex_char c && all_hex s'
  end.

Lemma hex_digit_ok d :
  (0 <= d < 16)%Z -> hex_char_value (hex_digit d) = d /\ is_hex_char (hex_digit d) = true.
Proof.
  intros H.
  assert (E : d = 0%Z \/ d = 1%Z \/ d = 2%Z \/ d = 3%Z \/ d = 4%Z \/ d = 5%Z \/ d = 6%Z \/
              d = 7%Z \/ d = 8%Z \/ d = 9%Z \/ d = 10%Z \/ d = 11%Z \/ d = 12%Z \/
              d = 13%Z \/ d = 14%Z \/ d = 15%Z) by lia.
  repeat (destruct E as [-> | E]; [split; reflexivity |]). subst. split; reflexivity.
Qed.

Lemma pow16_succ (f : nat) : (16 ^ Z.of_nat (S f) = 16 * 16 ^ Z.of_nat f)%Z.
Proof. rewrite Nat2Z.inj_succ, Z.pow_succ_r by lia. reflexivity. Qed.

Lemma hex_digits_value f n acc :
  (0 <= n < 16 ^ Z.of_nat f)%Z ->
  hex_value (hex_digits f n acc) = (n * 16 ^ Z.of_nat (length acc) + hex_value acc)%Z /\
  all_hex (hex_digits f n acc) = all_hex acc.
Proof.
  revert n acc. induction f as [| f IH]; intros n acc Hn.
  - simpl in Hn. assert (n = 0%Z) as -> by lia. simpl. auto.
  - rewrite pow16_succ in Hn.
    pose proof (Z.div_mod n 16 ltac:(lia)) as Hdm.
    pose proof (Z.mod_pos_bound n 16 ltac:(lia)) as Hr.
    destruct (hex_digit_ok (n mod 16) Hr) as [V A].
    cbn [hex_digits].
    destruct (n / 16 =? 0)%Z eqn:Eq.
    + apply Z.eqb_eq in Eq. cbn [hex_value all_hex]. rewrite V, A. split; [lia | reflexivity].
    + apply Z.eqb_neq in Eq.
      assert (Hq : (0 <= n / 16 < 16 ^ Z.of_nat f)%Z).
      { split; [apply Z.div_pos; lia | apply Z.div_lt_upper_bound; lia]. }
      destruct (IH (n / 16)%Z (String (hex_digit (n mod 16)) acc) Hq) as [V' A'].
      rewrite V', A'. cbn [hex_value all_hex length]. rewrite V, A, pow16_succ.
      split; [nia | reflexivity].
Qed.

Lemma hex_digits_length f n acc (d : nat) :
  (0 <= n < 16 ^ Z.of_nat d)%Z -> (1 <= d)%nat ->
  (length (hex_digits f n acc) <= d + length acc)%nat.
Proof.
  revert n acc d. induction f as [| f IH]; intros n acc d Hn Hd; cbn [hex_digits]; [lia |].
  destruct (n / 16 =? 0)%Z eqn:Eq; [cbn [length]; lia |].
  apply Z.eqb_neq in Eq.
  destruct d as [| [| d']]; [lia | simpl in Hn; exfalso; apply Eq, Z.div_small; lia |].
  rewrite pow16_succ in Hn.
  assert (Hq : (0 <= n / 16 < 16 ^ Z.of_nat (S d'))%Z).
  { split; [apply Z.div_pos; lia | apply Z.div_lt_upper_bound; lia]. }
  pose proof (IH (n / 16)%Z (String (hex_digit (n mod 16)) acc) (S d') Hq ltac:(lia)) as L.
  cbn [length] in L. lia.
Qed.

Lemma digit_fuel_enough n : (0 <= n)%Z -> (n < 16 ^ Z.of_nat (digit_fuel n))%Z.
Proof.
  intros Hn. unfold digit_fuel.
  rewrite Nat2Z.inj_succ, Z2Nat.id by apply Z.log2_nonneg.
  destruct (Z.eq_dec n 0%Z) as [-> | Hne]; [reflexivity |].
  destruct (Z.log2_spec n ltac:(lia)) as [_ Hup].
  eapply Z.lt_le_trans; [exact Hup |].
  apply Z.pow_le_mono_l. lia.
Qed.

Lemma zeros_prefix m s :
  hex_value (append (make_string m "0") s) = hex_value s /\
  all_hex (append (make_string m "0") s) = all_hex s /\
  length (append (make_string m "0") s) = (m + length s)%nat.
Proof.
  induction m as [| m (V & A & L)]; [auto |].
  cbn [make_string append hex_value all_hex length].
  rewrite V, A, L. split; [reflexivity | auto].
Qed.

Lemma append_empty s : append s "" = s.
Proof. induction s as [| c s IH]; [reflexivity | cbn; rewrite IH; reflexivity]. Qed.

Lemma fill_zeros_small fuel n acc :
  (n < 2 ^ 57)%Z -> fill_zeros fuel n acc = hex_digits (digit_fuel n) n acc.
Proof.
  intros Hn. destruct fuel as [| fuel]; [reflexivity |]. cbn [fill_zeros].
  replace (2 ^ 57 <=? n)%Z with false by (symmetry; apply Z.leb_gt; exact Hn).
  reflexivity.
Qed.

Lemma delta_pos v : (0 < Rmax (powerRZ 2 (-1074)) (1 / 2 * next_double_gap v))%R.
Proof.
  pose proof (powerRZ_lt 2 (-1074) ltac:(lra)) as P.
  pose proof (Rmax_l (powerRZ 2 (-1074)) (1 / 2 * next_double_gap v)). lra.
Qed.

(** On an integer, [toString(16)] writes no ['.']: the fraction is 0, below
    [delta]. *)
Lemma numberToString16_IZR n :
  (0 <= n < 2 ^ 57)%Z -> numberToString16 (IZR n) = hex_digits (digit_fuel n) n "".
Proof.
  intros Hn. unfold numberToString16.
  destruct (Rlt_dec (IZR n) 0) as [H | _]; [apply lt_IZR in H; lia |].
  cbv beta iota zeta.
  rewrite Int_part_IZR.
  replace (IZR n - IZR n)%R with 0%R by ring.
  destruct (Rge_dec 0 (Rmax (powerRZ 2 (-1074)) (1 / 2 * next_double_gap (IZR n))))
    as [H | _]; [pose proof (delta_pos (IZR n)); lra |].
  cbv beta iota zeta.
  rewrite append_empty. apply fill_zeros_small. lia.
Qed.

Lemma numberToString16_neg x :
  (x < 0)%R -> exists str, numberToString16 x = String "-" str.
Proof.
  intros Hx. unfold numberToString16.
  destruct (Rlt_dec x 0) as [_ | H]; [| lra].
  cbv beta iota zeta.
  destruct (if Rge_dec _ _ then _ else _) as [rev_digits carry].
  eexists. reflexivity.
Qed.

Lemma hex_digits_nonneg n :
  (0 <= n < 2 ^ 24)%Z ->
  hex_value (hex_digits (digit_fuel n) n "") = n /\
  all_hex (hex_digits (digit_fuel n) n "") = true /\
  (length (hex_digits (digit_fuel n) n "") <= 6)%nat.
Proof.
  intros Hn.
  assert (Hf : (0 <= n < 16 ^ Z.of_nat (digit_fuel n))%Z)
    by (split; [lia | apply digit_fuel_enough; lia]).
  destruct (hex_digits_value _ _ "" Hf) as [V A].
  rewrite V, A. cbn [hex_value all_hex length]. split; [lia | split; [reflexivity |]].
  pose proof (hex_digits_length (digit_fuel n) n "" 6 ltac:(simpl; lia) ltac:(lia)) as L.
  cbn [length] in L. lia.
Qed.

(** [formatColor] of an integer [n] with [0 <= n < 0x1000000] is ["#"]
    followed by exactly six lowercase hexadecimal digits, which read back
    as [n] (the number is zero-padded on the left by [padStart]). *)
Theorem formatColor_number_roundtrip (planeColor : string) (n : Z) :
  (0 <= n < 2 ^ 24)%Z ->
  exists ds, formatColor planeColor (VNumber (IZR n)) = String "#" ds /\
    length ds = 6%nat /\ all_hex ds = true /\ hex_value ds = n.
Proof.
  intros Hn. destruct (hex_digits_nonneg n Hn) as (V & A & L).
  exists (padStart (numberToString16 (IZR n)) 6 "0"). split; [reflexivity |].
  rewrite numberToString16_IZR by lia. unfold padStart.
  destruct (zeros_prefix (6 - length (hex_digits (digit_fuel n) n ""))
              (hex_digits (digit_fuel n) n "")) as (V' & A' & L').
  rewrite V', A', L', V, A. split; [lia | auto].
Qed.

Lemma formatColor_number_roundtrip_witness :
  (0 <= 4491519 < 2 ^ 24)%Z /\
  exists ds, formatColor "" (VNumber (IZR 4491519)) = String "#" ds /\
    length ds = 6%nat /\ all_hex ds = true /\ hex_value ds = 4491519%Z.
Proof.
  split; [lia |]. apply formatColor_number_roundtrip. lia.
Defined.

(** A negative number is not turned into a colour: [toString(16)] writes a
    minus sign, which [padStart] keeps, so the text after ["#"] is not all
    hexadecimal digits (e.g. [-255] gives ["#000-ff"], [-0.5] gives
    ["#0-0.8"]). *)
Theorem formatColor_negative_not_hex (planeColor : string) (x : R) :
  (x < 0)%R ->
  exists ds, formatColor planeColor (VNumber x) = String "#" ds /\ all_hex ds = false.
Proof.
  intros Hx. exists (padStart (numberToString16 x) 6 "0"). split; [reflexivity |].
  destruct (numberToString16_neg x Hx) as [str E]. unfold padStart. rewrite E.
  destruct (zeros_prefix (6 - length (String "-" str)) (String "-" str)) as (_ & A & _).
  rewrite A. reflexivity.
Qed.

Lemma formatColor_negative_not_hex_witness :
  exists ds, formatColor "" (VNumber (- (1 / 2))) = String "#" ds /\ all_hex ds = false.
Proof. apply formatColor_negative_not_hex. lra. Defined.

Lemma js_round_IZR n : js_round (IZR n) = n.
Proof.
  unfold js_round, Int_part.
  rewrite <- (tech_up (IZR n + 1 / 2) (n + 1)); [lia | |]; rewrite plus_IZR; simpl; lra.
Qed.

Lemma lor_low c n x :
  (0 <= n)%Z -> (0 <= x < 2 ^ n)%Z -> Z.lor (c * 2 ^ n) x = (c * 2 ^ n + x)%Z.
Proof.
  intros Hn Hx. rewrite <- Z.shiftl_mul_pow2 by exact Hn.
  assert (D : Z.land (Z.shiftl c n) x = 0%Z).
  { apply Z.bits_inj'. intros i Hi. rewrite Z.land_spec, Z.bits_0.
    destruct (Z.lt_ge_cases i n) as [Hlt | Hge].
    - rewrite Z.shiftl_spec_low by exact Hlt. reflexivity.
    - rewrite <- (Z.mod_small x (2 ^ n)) by exact Hx.
      rewrite Z.mod_pow2_bits_high by lia. apply andb_false_r. }
  rewrite <- Z.lxor_lor by exact D. symmetry. apply Z.add_nocarry_lxor. exact D.
Qed.

(** For a colour object whose rounded channels [r], [g], [b] lie in
    [0, 255], [formatColor] packs them as [r * 0x10000 + g * 0x100 + b] and
    formats that number: the bit operations [(r << 16) | (g << 8) | b] and
    [>>> 0] lose nothing. *)
Theorem formatColor_object_packs (planeColor : string)
    (r red g green b blue : option R) (rr gg bb : Z) :
  js_round (nullish r red) = rr -> js_round (nullish g green) = gg ->
  js_round (nullish b blue) = bb ->
  (0 <= rr <= 255)%Z -> (0 <= gg <= 255)%Z -> (0 <= bb <= 255)%Z ->
  formatColor planeColor (VObject r red g green b blue) =
  formatColor planeColor (VNumber (IZR (rr * 65536 + gg * 256 + bb))).
Proof.
  intros Er Eg Eb Hr Hg Hb. unfold formatColor. rewrite Er, Eg, Eb.
  rewrite !Z.shiftl_mul_pow2 by lia.
  rewrite lor_low by (cbn; lia).
  replace (rr * 2 ^ 16 + gg * 2 ^ 8)%Z with ((rr * 2 ^ 8 + gg) * 2 ^ 8)%Z by ring.
  rewrite lor_low by (cbn; lia).
  rewrite Z.land_ones, Z.mod_small by (cbn; lia).
  f_equal. f_equal. f_equal. f_equal. cbn. ring.
Qed.

Lemma formatColor_object_packs_witness :
  formatColor "" (VObject (Some 255) None (Some 136) None (Some 0) None) =
  formatColor "" (VNumber (IZR (255 * 65536 + 136 * 256 + 0))).
Proof.
  apply formatColor_object_packs; try apply js_round_IZR; lia.
Defined.

Lemma formatColor_starts_hash planeColor v :
  (planeColor = "" \/ startsWith_hash planeColor = true) ->
  startsWith_hash (formatColor planeColor v) = true.
Proof.
  intros Hp. destruct v as [str | n | | r red g green b blue]; cbn [formatColor].
  - destruct (startsWith_hash str) eqn:E; [exact E | reflexivity].
  - reflexivity.
  - destruct Hp as [-> | Hp]; [reflexivity |].
    destruct (String.eqb planeColor "") eqn:E; [reflexivity | exact Hp].
  - reflexivity.
Qed.

(** [formatColor] returns a string that starts with ["#"], unless the
    value is a non-finite number and the current plane colour is a
    non-empty string without one (then that colour is returned as is); so
    formatting an already formatted colour again leaves it unchanged. *)
Theorem formatColor_idempotent (planeColor : string) (v : ColorValue) :
  (planeColor = "" \/ startsWith_hash planeColor = true) ->
  startsWith_hash (formatColor planeColor v) = true /\
  formatColor planeColor (VString (formatColor planeColor v)) = formatColor planeColor v.
Proof.
  intros Hp. pose proof (formatColor_starts_hash planeColor v Hp) as S.
  split; [exact S |]. cbn [formatColor]. rewrite S. reflexivity.
Qed.

Lemma formatColor_idempotent_witness :
  startsWith_hash (formatColor "#ff6666" (VString "44aa88")) = true /\
  formatColor "#ff6666" (VString (formatColor "#ff6666" (VString "44aa88"))) =
  formatColor "#ff6666" (VString "44aa88").
Proof. apply formatColor_idempotent. right. reflexivity. Defined.

(** The plane colour kept in [guiControls] always starts with ["#"]: the
    constructor sets ["#ff6666"], and [setup] (with a [planeColor] option)
    and every later [setPlaneColor] store [formatColor] of the value, which
    keeps the ["#"] (a non-finite number keeps the current colour). *)
Theorem planeColor_starts_hash (option_planeColor : option ColorValue)
    (values : list ColorValue) :
  startsWith_hash
    (fold_left (fun planeColor v => setPlaneColor v planeColor) values
       (setup_planeColor option_planeColor initialPlaneColor)) = true.
Proof.
  assert (H0 : startsWith_hash (setup_planeColor option_planeColor initialPlaneColor) = true).
  { destruct option_planeColor as [v |]; [| reflexivity].
    apply formatColor_starts_hash. right. reflexivity. }
  revert H0. generalize (setup_planeColor option_planeColor initialPlaneColor).
  induction values as [| v values IH]; intros pc Hpc; [exact Hpc |].
  cbn [fold_left]. apply IH. unfold setPlaneColor.
  apply formatColor_starts_hash. right. exact Hpc.
Qed.

End FormatColor.
